(** * The session of ember-simple-auth

    A shallow embedding of [packages/simple-auth/lib/simple-auth/session.js]:
    the session object, the store it persists to, the event listeners it
    registers on authenticators, and the events it triggers.

    JavaScript objects used as dictionaries are finite maps from property
    names to values.  Methods that read and write the session are
    computations in a state monad whose exceptions keep the state that was
    reached when they were thrown, as a JavaScript [throw] does. *)

From stdpp Require Import base option list strings gmap fin_maps.

Open Scope string_scope.
Open Scope list_scope.

(** ** Values and objects *)

(** JavaScript values.  [undefined] is not a constructor: a property that is
    missing reads as [None], and a property holding [undefined] is not told
    apart from a missing one (neither [jQuery.extend] nor a JSON store
    does). *)
#[warnings="-register-all"]
Inductive value : Type :=
  | VNull
  | VBool (b : bool)
  | VNum (n : Z)
  | VStr (s : string)
  | VObj (fields : list (string * value)).

(** A plain object: session content, store snapshots, options. *)
Abbreviation data := (gmap string value).

(** [!!v] *)
Definition truthy (v : value) : bool :=
  match v with
  | VNull => false
  | VBool b => b
  | VNum n => negb (n =? 0)%Z
  | VStr s => negb (String.eqb s "")
  | VObj _ => true
  end.

Fixpoint field (k : string) (fs : list (string * value)) : option value :=
  match fs with
  | [] => None
  | (k', v) :: fs' => if String.eqb k k' then Some v else field k fs'
  end.

(** [Ember.isEmpty]: [null], the empty string, and anything whose [length]
    is [0]. *)
Definition isEmpty (v : value) : bool :=
  match v with
  | VNull => true
  | VStr s => String.eqb s ""
  | VObj fs => match field "length" fs with Some (VNum 0) => true | _ => false end
  | _ => false
  end.

(** [Ember.$.extend(target, source)]: every property of [source] is copied
    onto [target], overwriting what [target] had under that name. *)
Definition extend (target source : data) : data := source ∪ target.

(** ** The state *)

(** The three properties [setup] and [clear] write. *)
Record Session : Type := mkSession {
  isAuthenticated : bool;
  authenticatorFactory : value;
  content : data
}.

(** The events the session triggers on itself. *)
Inductive Event : Type :=
  | sessionAuthenticationSucceeded
  | sessionAuthenticationFailed (error : value)
  | sessionInvalidationSucceeded
  | sessionInvalidationFailed (error : value).

(** The two closures [bindToAuthenticatorEvents] registers.  Both close over
    the session only, so two closures of one kind behave alike.
    - [onSessionDataUpdated] is
      [function(content) { _this.setup(_this.authenticatorFactory, content); }]
    - [onSessionDataInvalidated] is
      [function(content) { _this.clear(true); }] *)
Inductive Handler : Type :=
  | onSessionDataUpdated
  | onSessionDataInvalidated.

(** The listeners of one authenticator, by event name. *)
Abbreviation Listeners := (gmap string (list Handler)).

(** How the promise an authenticator returned settles. *)
Inductive Outcome : Type :=
  | Resolved (c : data)
  | Rejected (error : value).

(** What a computation can throw. *)
Inductive Exn : Type :=
  | AssertionFailed
  | LookupFailed (name : value).

(** How the promise a session method returned settles.  [reject()] without
    an argument rejects with [undefined], here [None]; an executor that
    throws rejects its promise with what it threw. *)
Inductive Settled : Type :=
  | Fulfilled
  | RejectedWith (reason : option value)
  | RejectedByThrow (x : Exn).

(** What was asked of an authenticator. *)
Inductive Request : Type :=
  | authenticateWith (options : data)
  | invalidateWith (d : data)
  | restoreWith (d : data).

(** The pair of callbacks passed to [then], with the variables they close
    over. *)
Inductive Callbacks : Type :=
  | thenOfAuthenticate (f : value)
  | thenOfInvalidate (authenticator : string)
  | thenOfRestore (f : value)
  | thenOfStoreUpdate (f : value).

(** A promise of an authenticator that has not settled yet. *)
Record Pending : Type := mkPending {
  callee : string;
  request : Request;
  callbacks : Callbacks
}.

(** Everything the session reads and writes.  Authenticators are singletons
    of the container, so an authenticator is named by its factory. *)
Record World : Type := mkWorld {
  session : Session;
  store : data;
  listeners : gmap string Listeners;
  triggered : list Event;
  pending : list Pending
}.

Definition withSession (s : Session) (w : World) : World :=
  mkWorld s (store w) (listeners w) (triggered w) (pending w).
Definition withStore (d : data) (w : World) : World :=
  mkWorld (session w) d (listeners w) (triggered w) (pending w).
Definition withListeners (l : gmap string Listeners) (w : World) : World :=
  mkWorld (session w) (store w) l (triggered w) (pending w).
Definition withTriggered (l : list Event) (w : World) : World :=
  mkWorld (session w) (store w) (listeners w) l (pending w).
Definition withPending (l : list Pending) (w : World) : World :=
  mkWorld (session w) (store w) (listeners w) (triggered w) l.

(** The session as [extend] declares it, before [init]. *)
Definition freshSession : Session := mkSession false VNull ∅.

(** The world at start-up: whatever an earlier page load left in the
    store, nothing bound, nothing triggered. *)
Definition startup (snapshot : data) : World :=
  mkWorld freshSession snapshot ∅ [] [].

(** ** Computations *)

Inductive Exec (A : Type) : Type :=
  | Ok (a : A) (w : World)
  | Throw (x : Exn) (w : World).
Arguments Ok {A} a w.
Arguments Throw {A} x w.

Definition M (A : Type) : Type := World → Exec A.

#[global] Instance M_ret : MRet M := λ A a w, Ok a w.
#[global] Instance M_bind : MBind M := λ A B f m w,
  match m w with
  | Ok a w' => f a w'
  | Throw x w' => Throw x w'
  end.

Definition world_of {A} (r : Exec A) : World :=
  match r with Ok _ w => w | Throw _ w => w end.

Definition throw {A} (x : Exn) : M A := λ w, Throw x w.
Definition modify (f : World → World) : M unit := λ w, Ok tt (f w).
Definition getSession : M Session := λ w, Ok (session w) w.
Definition getStore : M data := λ w, Ok (store w) w.

(** [Ember.assert], as a development build has it: a failed assertion
    throws. *)
Definition assert (b : bool) : M unit :=
  if b then mret tt else throw AssertionFailed.

(** [this.setProperties({ isAuthenticated: .., authenticatorFactory: .., content: .. })] *)
Definition setProperties (s : Session) : M unit := modify (withSession s).

(** [this.trigger(event)] *)
Definition trigger (e : Event) : M unit :=
  modify (λ w, withTriggered (triggered w ++ [e]) w).

(** Modelled from the spec: the store ([this.store], an object of a class
    outside this file), by its interface: [replace] and [clear] overwrite
    the persisted snapshot, [restore] reads a copy of it. *)
Definition storeReplace (d : data) : M unit := modify (withStore d).
Definition storeClear : M unit := modify (withStore ∅).
Definition storeRestore : M data := getStore.

(** Modelled from the spec: the event channel of an authenticator
    ([Ember.Evented], outside this file), as the listeners it holds. *)
Definition handlers (L : gmap string Listeners) (a name : string) : list Handler :=
  (L !!! a) !!! name.

Definition removeListeners (a name : string) (L : gmap string Listeners)
    : gmap string Listeners :=
  <[a := delete name (L !!! a)]> L.

Definition addListener (a name : string) (h : Handler) (L : gmap string Listeners)
    : gmap string Listeners :=
  <[a := <[name := handlers L a name ++ [h]]> (L !!! a)]> L.

(** [authenticator.off(name)]: no listener of that event is left. *)
Definition off (a name : string) : M unit :=
  modify (λ w, withListeners (removeListeners a name (listeners w)) w).

(** [authenticator.on(name, handler)]: one more listener, after the others. *)
Definition on (a name : string) (h : Handler) : M unit :=
  modify (λ w, withListeners (addListener a name h (listeners w)) w).

Definition listenersOf (w : World) (a name : string) : list Handler :=
  handlers (listeners w) a name.

(** [new Ember.RSVP.Promise(executor)]: an executor that throws rejects the
    promise; what it had written stays written. *)
Definition promise (executor : M (Settled + Pending)) : M (Settled + Pending) :=
  λ w, match executor w with
       | Ok x w' => Ok x w'
       | Throw x w' => Ok (inl (RejectedByThrow x)) w'
       end.

(** ** The methods of the session *)

(** Modelled from the spec: the container ([this.container], an object of
    Ember), as the factory names registered with it. *)
Class Container : Type := registered : gset string.

Section Session.

Context {container : Container}.

(** Modelled from the spec: [this.container.lookup(name)] resolves a factory
    name to its authenticator.  A name that resolves to nothing ([null], a
    name not registered) makes the method call on the result throw. *)
Definition containerLookup (name : value) : M string :=
  match name with
  | VStr s => if decide (s ∈ registered) then mret s else throw (LookupFailed name)
  | _ => throw (LookupFailed name)
  end.

(** [bindToAuthenticatorEvents] *)
Definition bindToAuthenticatorEvents : M unit :=
  this ← getSession;
  authenticator ← containerLookup (authenticatorFactory this);
  off authenticator "sessionDataUpdated";;
  off authenticator "sessionDataInvalidated";;
  on authenticator "sessionDataUpdated" onSessionDataUpdated;;
  on authenticator "sessionDataInvalidated" onSessionDataInvalidated.

(** [setup(authenticatorFactory, content, trigger)].  A call with two
    arguments has [trigger] undefined, and [!!undefined] is [false].
    [beginPropertyChanges] and [endPropertyChanges] only defer the observers
    of the session, which are not part of the world. *)
Definition setup (f : value) (c : data) (shouldTrigger : bool) : M unit :=
  this ← getSession;
  let shouldTrigger := shouldTrigger && negb (isAuthenticated this) in
  setProperties (mkSession true f c);;
  bindToAuthenticatorEvents;;
  this ← getSession;
  let data := extend {[ "authenticatorFactory" := f ]} (content this) in
  storeReplace data;;
  if shouldTrigger then trigger sessionAuthenticationSucceeded else mret tt.

(** [clear(trigger)] *)
Definition clear (shouldTrigger : bool) : M unit :=
  this ← getSession;
  let shouldTrigger := shouldTrigger && isAuthenticated this in
  setProperties (mkSession false VNull ∅);;
  storeClear;;
  if shouldTrigger then trigger sessionInvalidationSucceeded else mret tt.

(** [authenticate(authenticatorFactory, options)], up to the promise of the
    authenticator. *)
Definition authenticate (f : value) (options : data) : M (Settled + Pending) :=
  assert (negb (isEmpty f));;
  promise (
    authenticator ← containerLookup f;
    mret (inr (mkPending authenticator (authenticateWith options) (thenOfAuthenticate f)))).

(** The two callbacks of [authenticate]. *)
Definition authenticate_then (f : value) (r : Outcome) : M Settled :=
  match r with
  | Resolved c =>
      setup f c true;;
      mret Fulfilled
  | Rejected error =>
      clear false;;
      trigger (sessionAuthenticationFailed error);;
      mret (RejectedWith (Some error))
  end.

(** [invalidate()], up to the promise of the authenticator. *)
Definition invalidate : M (Settled + Pending) :=
  promise (
    this ← getSession;
    authenticator ← containerLookup (authenticatorFactory this);
    mret (inr (mkPending authenticator (invalidateWith (content this))
                 (thenOfInvalidate authenticator)))).

(** The two callbacks of [invalidate]. *)
Definition invalidate_then (authenticator : string) (r : Outcome) : M Settled :=
  match r with
  | Resolved _ =>
      off authenticator "sessionDataUpdated";;
      clear true;;
      mret Fulfilled
  | Rejected error =>
      trigger (sessionInvalidationFailed error);;
      mret (RejectedWith (Some error))
  end.

(** [restore()], up to the promise of the authenticator. *)
Definition restore : M (Settled + Pending) :=
  promise (
    restoredContent ← storeRestore;
    match restoredContent !! "authenticatorFactory" with
    | Some f =>
        if truthy f then
          let restoredContent := delete "authenticatorFactory" restoredContent in
          authenticator ← containerLookup f;
          mret (inr (mkPending authenticator (restoreWith restoredContent) (thenOfRestore f)))
        else
          storeClear;;
          mret (inl (RejectedWith None))
    | None =>
        storeClear;;
        mret (inl (RejectedWith None))
    end).

(** The two callbacks of [restore]. *)
Definition restore_then (f : value) (r : Outcome) : M Settled :=
  match r with
  | Resolved c =>
      setup f c false;;
      mret Fulfilled
  | Rejected _ =>
      storeClear;;
      mret (RejectedWith None)
  end.

(** The listener [bindToStoreEvents] registers on the store, up to the
    promise of the authenticator. *)
Definition storeSessionDataUpdated (c : data) : M (option Pending) :=
  match c !! "authenticatorFactory" with
  | Some f =>
      if truthy f then
        let c := delete "authenticatorFactory" c in
        authenticator ← containerLookup f;
        mret (Some (mkPending authenticator (restoreWith c) (thenOfStoreUpdate f)))
      else
        clear true;;
        mret None
  | None =>
      clear true;;
      mret None
  end.

(** The two callbacks of that listener.  Nothing holds the promise [then]
    returns. *)
Definition storeSessionDataUpdated_then (f : value) (r : Outcome) : M unit :=
  match r with
  | Resolved c => setup f c true
  | Rejected _ => clear true
  end.

(** One listener of an authenticator, called with the payload of the
    event. *)
Definition call (h : Handler) (payload : data) : M unit :=
  match h with
  | onSessionDataUpdated =>
      this ← getSession;
      setup (authenticatorFactory this) payload false
  | onSessionDataInvalidated =>
      clear true
  end.

Fixpoint callAll (hs : list Handler) (payload : data) : M unit :=
  match hs with
  | [] => mret tt
  | h :: hs' => call h payload;; callAll hs' payload
  end.

(** Modelled from the spec: [authenticator.trigger(name, payload)], done by
    code outside this file, calls the listeners bound when it starts, in
    the order they were bound; a listener that throws ends it. *)
Definition authenticatorTrigger (a name : string) (payload : data) : M unit :=
  λ w, callAll (listenersOf w a name) payload w.

(** ** Settling promises *)

(** The callbacks of a pending promise, run when it settles. *)
Definition settle (k : Callbacks) (r : Outcome) : M Settled :=
  match k with
  | thenOfAuthenticate f => authenticate_then f r
  | thenOfInvalidate a => invalidate_then a r
  | thenOfRestore f => restore_then f r
  | thenOfStoreUpdate f => storeSessionDataUpdated_then f r;; mret Fulfilled
  end.

(** A method call whose authenticator settles with [r] before anything else
    happens. *)
Definition settling (m : M (Settled + Pending)) (r : Outcome) : M Settled :=
  x ← m;
  match x with
  | inl s => mret s
  | inr p => settle (callbacks p) r
  end.

(** ** Runs *)

(** What can happen to a running session: the application calls a method,
    a promise of an authenticator settles, the store or an authenticator
    triggers an event. *)
Inductive Action : Type :=
  | callAuthenticate (f : value) (options : data)
  | callInvalidate
  | callRestore
  | callSetup (f : value) (c : data) (shouldTrigger : bool)
  | callClear (shouldTrigger : bool)
  | settles (i : nat) (r : Outcome)
  | storeTriggers (payload : data)
  | authenticatorTriggers (a name : string) (payload : data).

Definition await (p : Pending) : M unit :=
  modify (λ w, withPending (pending w ++ [p]) w).

Definition perform (act : Action) : M unit :=
  match act with
  | callAuthenticate f options =>
      x ← authenticate f options;
      match x with inr p => await p | inl _ => mret tt end
  | callInvalidate =>
      x ← invalidate;
      match x with inr p => await p | inl _ => mret tt end
  | callRestore =>
      x ← restore;
      match x with inr p => await p | inl _ => mret tt end
  | callSetup f c t => setup f c t
  | callClear t => clear t
  | settles i r =>
      λ w, match pending w !! i with
           | Some p => (modify (withPending (delete i (pending w)));;
                        settle (callbacks p) r;; mret tt) w
           | None => Ok tt w
           end
  | storeTriggers payload =>
      x ← storeSessionDataUpdated payload;
      match x with Some p => await p | None => mret tt end
  | authenticatorTriggers a name payload => authenticatorTrigger a name payload
  end.

(** An exception ends the action that threw it and nothing else: the world
    it leaves is the one the next action starts in. *)
Definition step (w : World) (act : Action) : World := world_of (perform act w).

Definition run (acts : list Action) (w : World) : World := foldl step w acts.

Definition reachable (w : World) : Prop :=
  ∃ snapshot acts, w = run acts (startup snapshot).

(** ** Notions the statements use *)

(** The factory name [f] is that of the registered authenticator [a]. *)
Definition resolves (f : value) (a : string) : Prop :=
  f = VStr a ∧ a ∈ registered.

(** The listeners of [a] once [bindToAuthenticatorEvents] has run on it. *)
Definition rebind (a : string) (L : gmap string Listeners) : gmap string Listeners :=
  addListener a "sessionDataInvalidated" onSessionDataInvalidated
    (addListener a "sessionDataUpdated" onSessionDataUpdated
       (removeListeners a "sessionDataInvalidated"
          (removeListeners a "sessionDataUpdated" L))).

(** The events [setup] and [clear] trigger. *)
Definition firedBySetup (shouldTrigger : bool) (w : World) : list Event :=
  if shouldTrigger && negb (isAuthenticated (session w))
  then [sessionAuthenticationSucceeded] else [].

Definition firedByClear (shouldTrigger : bool) (w : World) : list Event :=
  if shouldTrigger && isAuthenticated (session w)
  then [sessionInvalidationSucceeded] else [].

(** A property of the world that a computation keeps, whether it returns
    or throws. *)
Definition preserves {A} (P : World → Prop) (m : M A) : Prop :=
  ∀ w, P w → P (world_of (m w)).

(** A factory is recorded only while the session is authenticated. *)
Definition factoryOnlyWhenAuthenticated (w : World) : Prop :=
  isAuthenticated (session w) = false →
  authenticatorFactory (session w) = VNull ∧ content (session w) = ∅.

(** The snapshot of the store agrees with the session: the content together
    with the factory when authenticated, nothing otherwise. *)
Definition storeMatchesSession (w : World) : Prop :=
  if isAuthenticated (session w)
  then store w =
         content (session w) ∪ {[ "authenticatorFactory" := authenticatorFactory (session w) ]}
  else store w = ∅.

(** No authenticator holds two listeners of one event. *)
Definition singleSubscription (w : World) : Prop :=
  ∀ a name, (length (listenersOf w a name) ≤ 1)%nat.

(** Every listener an authenticator holds is one that
    [bindToAuthenticatorEvents] registered: the authenticator is one of the
    container, and the listener is the closure of its event. *)
Definition boundBySession (w : World) : Prop :=
  ∀ a name,
    listenersOf w a name = [] ∨
    (a ∈ registered ∧
     ((name = "sessionDataUpdated" ∧
       listenersOf w a name = [onSessionDataUpdated]) ∨
      (name = "sessionDataInvalidated" ∧
       listenersOf w a name = [onSessionDataInvalidated]))).

(** From [w] to [w'] events were only added, and each success event among
    them marks the transition it is named after. *)
Definition onTheEdge (w w' : World) : Prop :=
  ∃ fired,
    triggered w' = triggered w ++ fired ∧
    (sessionAuthenticationSucceeded ∈ fired →
     isAuthenticated (session w) = false ∧ isAuthenticated (session w') = true) ∧
    (sessionInvalidationSucceeded ∈ fired →
     isAuthenticated (session w) = true ∧ isAuthenticated (session w') = false).

(** The factory the callbacks of a pending promise will hand to [setup] is
    one the container resolves. *)
Definition awaitsKnownFactory (p : Pending) : Prop :=
  match callbacks p with
  | thenOfAuthenticate f | thenOfRestore f | thenOfStoreUpdate f => ∃ a, resolves f a
  | thenOfInvalidate _ => True
  end.

(** The session, when authenticated, has a factory the container resolves,
    and so has every promise that is pending. *)
Definition boundToKnownFactory (w : World) : Prop :=
  (isAuthenticated (session w) = true →
   ∃ a, resolves (authenticatorFactory (session w)) a) ∧
  Forall awaitsKnownFactory (pending w).

(** What the code of the session and its collaborators can make happen in
    [w], as they are meant to be used: [setup] is private and not called
    from outside, and an authenticator reports updated data only to a
    session that is authenticated. *)
Definition expected (w : World) (act : Action) : Prop :=
  match act with
  | callSetup _ _ _ => False
  | authenticatorTriggers _ name _ =>
      name = "sessionDataUpdated" → isAuthenticated (session w) = true
  | _ => True
  end.

Fixpoint expectedFrom (w : World) (acts : list Action) : Prop :=
  match acts with
  | [] => True
  | act :: acts' => expected w act ∧ expectedFrom (step w act) acts'
  end.

End Session.

(** ** Scenarios *)

(** A container with two authenticators. *)
Definition registry : Container := ({[ "password"; "token" ]} : gset string).

Definition credentials : data := {[ "user" := VStr "a"; "pass" := VStr "b" ]}.
Definition badCredentials : value := VObj [("message", VStr "bad credentials")].
Definition expired : value := VObj [("message", VStr "token expired")].

(** A session that [authenticate("password", credentials)] authenticated. *)
Definition login : list Action :=
  [ callAuthenticate (VStr "password") credentials;
    settles 0 (Resolved {[ "token" := VStr "xyz" ]}) ].

Definition loggedIn : World := run (container := registry) login (startup ∅).

(** What an earlier page load of a session authenticated with ["token"] left
    in the store. *)
Definition tokenSnapshot : data :=
  {[ "authenticatorFactory" := VStr "token"; "token" := VStr "abc" ]}.

(** A content that brings an [authenticatorFactory] entry of its own. *)
Definition foreignContent : data :=
  {[ "authenticatorFactory" := VStr "token"; "token" := VStr "xyz" ]}.

(** The session logs in; another tab logs out, which the store reports with
    an empty snapshot; then the authenticator of the first login, whose
    listeners nothing removed, reports refreshed data. *)
Definition staleUpdate : list Action :=
  login ++
  [ storeTriggers ∅;
    authenticatorTriggers "password" "sessionDataUpdated" {[ "token" := VStr "new" ]} ].

(** Snapshots no authenticator can restore: one of a factory the container
    does not know, one whose factory is the empty string. *)
Definition unknownSnapshot : data :=
  {[ "authenticatorFactory" := VStr "facebook"; "token" := VStr "abc" ]}.

Definition falsySnapshot : data :=
  {[ "authenticatorFactory" := VStr ""; "token" := VStr "abc" ]}.

(** A session that authenticated with ["password"] and then, without
    invalidating, with ["token"]. *)
Definition loginTwice : list Action :=
  login ++
  [ callAuthenticate (VStr "token") ∅;
    settles 0 (Resolved {[ "token" := VStr "abc" ]}) ].

Definition loggedInTwice : World := run (container := registry) loginTwice (startup ∅).

(** The session logs in, its authenticator reports refreshed data, and the
    session logs out. *)
Definition refreshThenLogout : list Action :=
  login ++
  [ authenticatorTriggers "password" "sessionDataUpdated" {[ "token" := VStr "new" ]};
    callInvalidate;
    settles 0 (Resolved ∅) ].

(** * Properties *)

Section Properties.

Context {container : Container}.

(** ** Listeners *)

Lemma handlers_removeListeners a name L a' name' :
  handlers (removeListeners a name L) a' name' =
  if decide (a = a' ∧ name = name') then [] else handlers L a' name'.
Proof.
  unfold handlers, removeListeners.
  destruct (decide (a = a')) as [<-|Ha].
  - rewrite lookup_total_insert_eq.
    destruct (decide (name = name')) as [<-|Hn].
    + rewrite decide_True by done.
      by rewrite lookup_total_alt, lookup_delete_eq.
    + rewrite decide_False by (intros [? ?]; congruence).
      by rewrite lookup_total_delete_ne.
  - rewrite decide_False by (intros [? ?]; congruence).
    by rewrite lookup_total_insert_ne.
Qed.

Lemma handlers_addListener a name h L a' name' :
  handlers (addListener a name h L) a' name' =
  if decide (a = a' ∧ name = name') then handlers L a name ++ [h]
  else handlers L a' name'.
Proof.
  unfold addListener.
  generalize (handlers L a name ++ [h]); intros hs.
  unfold handlers.
  destruct (decide (a = a')) as [<-|Ha].
  - rewrite lookup_total_insert_eq.
    destruct (decide (name = name')) as [<-|Hn].
    + rewrite decide_True by done. by rewrite lookup_total_insert_eq.
    + rewrite decide_False by (intros [? ?]; congruence). by rewrite lookup_total_insert_ne.
  - rewrite decide_False by (intros [? ?]; congruence).
    by rewrite lookup_total_insert_ne.
Qed.

Lemma handlers_rebind_updated a L :
  handlers (rebind a L) a "sessionDataUpdated" = [onSessionDataUpdated].
Proof.
  unfold rebind.
  rewrite handlers_addListener, decide_False by (intros [_ ?]; discriminate).
  rewrite handlers_addListener, decide_True by done.
  rewrite handlers_removeListeners, decide_False by (intros [_ ?]; discriminate).
  by rewrite handlers_removeListeners, decide_True.
Qed.

Lemma handlers_rebind_invalidated a L :
  handlers (rebind a L) a "sessionDataInvalidated" = [onSessionDataInvalidated].
Proof.
  unfold rebind.
  rewrite handlers_addListener, decide_True by done.
  rewrite handlers_addListener, decide_False by (intros [_ ?]; discriminate).
  by rewrite handlers_removeListeners, decide_True.
Qed.

Lemma handlers_rebind_other a L a' name :
  a ≠ a' ∨ (name ≠ "sessionDataUpdated" ∧ name ≠ "sessionDataInvalidated") →
  handlers (rebind a L) a' name = handlers L a' name.
Proof.
  intros H. unfold rebind.
  rewrite !handlers_addListener, !handlers_removeListeners.
  rewrite !decide_False; first done; intros [? ?]; subst; destruct H as [?|[? ?]]; congruence.
Qed.

Lemma handlers_rebind_length a L a' name :
  (∀ b n, (length (handlers L b n) ≤ 1)%nat) →
  (length (handlers (rebind a L) a' name) ≤ 1)%nat.
Proof.
  intros HL.
  destruct (decide (a = a')) as [<-|Ha].
  - destruct (decide (name = "sessionDataUpdated")) as [->|Hu].
    { by rewrite handlers_rebind_updated. }
    destruct (decide (name = "sessionDataInvalidated")) as [->|Hi].
    { by rewrite handlers_rebind_invalidated. }
    rewrite handlers_rebind_other by auto. apply HL.
  - rewrite handlers_rebind_other by auto. apply HL.
Qed.

(** ** What each method computes *)

Lemma bind_Ok {A B} (m : M A) (k : A → M B) w a w' :
  m w = Ok a w' → (m ≫= k) w = k a w'.
Proof. unfold mbind, M_bind. by intros ->. Qed.

Lemma bind_Throw {A B} (m : M A) (k : A → M B) w x w' :
  m w = Throw x w' → (m ≫= k) w = Throw x w'.
Proof. unfold mbind, M_bind. by intros ->. Qed.

Lemma containerLookup_resolves f a w :
  resolves f a → containerLookup f w = Ok a w.
Proof. intros [-> Ha]. unfold containerLookup. by rewrite decide_True. Qed.

Lemma containerLookup_cases f w :
  (∃ a, resolves f a ∧ containerLookup f w = Ok a w) ∨
  ((∀ a, ¬ resolves f a) ∧ containerLookup f w = Throw (LookupFailed f) w).
Proof.
  destruct f as [| | |s|]; try (right; split; [intros a [? _]; discriminate | done]).
  destruct (decide (s ∈ registered)) as [Hs|Hs].
  - left. exists s. split; [done|]. by apply containerLookup_resolves.
  - right. split.
    + intros a [[= ->] ?]. done.
    + unfold containerLookup. by rewrite decide_False.
Qed.

Lemma resolves_functional f a b : resolves f a → resolves f b → a = b.
Proof. intros [-> _] [[= ->] _]. done. Qed.

Lemma bindToAuthenticatorEvents_Ok a w :
  resolves (authenticatorFactory (session w)) a →
  bindToAuthenticatorEvents w = Ok tt (withListeners (rebind a (listeners w)) w).
Proof.
  intros Ha. unfold bindToAuthenticatorEvents.
  rewrite (bind_Ok _ _ w (session w) w) by done.
  rewrite (bind_Ok _ _ w a w) by by apply containerLookup_resolves.
  done.
Qed.

Lemma bindToAuthenticatorEvents_Throw w :
  (∀ a, ¬ resolves (authenticatorFactory (session w)) a) →
  bindToAuthenticatorEvents w = Throw (LookupFailed (authenticatorFactory (session w))) w.
Proof.
  intros Hno. unfold bindToAuthenticatorEvents.
  rewrite (bind_Ok _ _ w (session w) w) by done.
  destruct (containerLookup_cases (authenticatorFactory (session w)) w)
    as [(a & Ha & _)|[_ Hthrow]]; [by destruct (Hno a)|].
  by rewrite (bind_Throw _ _ _ _ _ Hthrow).
Qed.

Lemma setup_Ok f a c t w :
  resolves f a →
  setup f c t w =
  Ok tt (mkWorld (mkSession true f c)
           (c ∪ {[ "authenticatorFactory" := f ]})
           (rebind a (listeners w))
           (triggered w ++ firedBySetup t w)
           (pending w)).
Proof.
  intros Ha. unfold setup.
  rewrite (bind_Ok _ _ w (session w) w) by done.
  erewrite bind_Ok by done.
  erewrite bind_Ok by (by apply (bindToAuthenticatorEvents_Ok a)).
  erewrite bind_Ok by done.
  erewrite bind_Ok by done.
  unfold firedBySetup.
  destruct (t && negb (isAuthenticated (session w))); cbn.
  - done.
  - by rewrite app_nil_r.
Qed.

Lemma setup_Throw f c t w :
  (∀ a, ¬ resolves f a) →
  setup f c t w = Throw (LookupFailed f) (withSession (mkSession true f c) w).
Proof.
  intros Hno. unfold setup.
  rewrite (bind_Ok _ _ w (session w) w) by done.
  erewrite bind_Ok by done.
  erewrite bind_Throw; [done|].
  by rewrite bindToAuthenticatorEvents_Throw.
Qed.

Lemma clear_Ok t w :
  clear t w =
  Ok tt (mkWorld freshSession ∅ (listeners w)
           (triggered w ++ firedByClear t w) (pending w)).
Proof.
  unfold clear.
  rewrite (bind_Ok _ _ w (session w) w) by done.
  erewrite bind_Ok by done.
  erewrite bind_Ok by done.
  unfold firedByClear.
  destruct (t && isAuthenticated (session w)); cbn.
  - done.
  - by rewrite app_nil_r.
Qed.

Lemma setup_cases f c t w :
  (∃ a, resolves f a ∧
        setup f c t w =
        Ok tt (mkWorld (mkSession true f c) (c ∪ {[ "authenticatorFactory" := f ]})
                 (rebind a (listeners w)) (triggered w ++ firedBySetup t w) (pending w))) ∨
  ((∀ a, ¬ resolves f a) ∧
   setup f c t w = Throw (LookupFailed f) (withSession (mkSession true f c) w)).
Proof.
  destruct (containerLookup_cases f w) as [(a & Ha & _)|[Hno _]].
  - left. exists a. split; [done|]. by apply setup_Ok.
  - right. split; [done|]. by apply setup_Throw.
Qed.

Lemma authenticate_Ok f a options w :
  isEmpty f = false → resolves f a →
  authenticate f options w =
  Ok (inr (mkPending a (authenticateWith options) (thenOfAuthenticate f))) w.
Proof.
  intros Hne Ha. unfold authenticate. rewrite Hne. cbn [negb assert].
  erewrite bind_Ok by done.
  unfold promise.
  erewrite bind_Ok by by apply containerLookup_resolves.
  done.
Qed.

Lemma invalidate_Ok a w :
  resolves (authenticatorFactory (session w)) a →
  invalidate w =
  Ok (inr (mkPending a (invalidateWith (content (session w))) (thenOfInvalidate a))) w.
Proof.
  intros Ha. unfold invalidate, promise.
  rewrite (bind_Ok _ _ w (session w) w) by done.
  erewrite bind_Ok by by apply containerLookup_resolves.
  done.
Qed.

Lemma restore_Ok f a w :
  store w !! "authenticatorFactory" = Some f → truthy f = true → resolves f a →
  restore w =
  Ok (inr (mkPending a (restoreWith (delete "authenticatorFactory" (store w)))
             (thenOfRestore f))) w.
Proof.
  intros Hf Ht Ha. unfold restore, promise.
  rewrite (bind_Ok _ _ w (store w) w) by done.
  rewrite Hf, Ht.
  erewrite bind_Ok by by apply containerLookup_resolves.
  done.
Qed.

Lemma settling_pending m r w p :
  m w = Ok (inr p) w → settling m r w = settle (callbacks p) r w.
Proof. intros Hm. unfold settling. by erewrite bind_Ok by done. Qed.

Lemma invalidate_then_resolved a c w :
  invalidate_then a (Resolved c) w =
  Ok Fulfilled
    (mkWorld freshSession ∅ (removeListeners a "sessionDataUpdated" (listeners w))
       (triggered w ++ firedByClear true w) (pending w)).
Proof.
  unfold invalidate_then.
  erewrite bind_Ok by done.
  erewrite bind_Ok by apply clear_Ok.
  done.
Qed.

(** ** Properties kept along every run *)

Lemma preserves_bind {A B} P (m : M A) (k : A → M B) :
  preserves P m → (∀ a, preserves P (k a)) → preserves P (m ≫= k).
Proof.
  intros Hm Hk w Hw. unfold mbind, M_bind.
  specialize (Hm w Hw). destruct (m w) as [a w'|x w']; cbn in *.
  - by apply Hk.
  - done.
Qed.

Lemma preserves_ret {A} P (a : A) : preserves P (mret a).
Proof. by intros w Hw. Qed.

Lemma preserves_throw {A} P x : preserves P (@throw A x).
Proof. by intros w Hw. Qed.

Lemma preserves_getSession P : preserves P getSession.
Proof. by intros w Hw. Qed.

Lemma preserves_assert P b : preserves P (assert b).
Proof. destruct b; [apply preserves_ret | apply preserves_throw]. Qed.

Lemma preserves_containerLookup P f : preserves P (containerLookup f).
Proof.
  intros w Hw.
  by destruct (containerLookup_cases f w) as [(a & _ & ->)|[_ ->]].
Qed.

Lemma preserves_promise P m : preserves P m → preserves P (promise m).
Proof.
  intros Hm w Hw. unfold promise.
  specialize (Hm w Hw). by destruct (m w).
Qed.

Create HintDb preserves.

Section Invariant.

Variable P : World → Prop.

Hypothesis P_setup : ∀ f c t, preserves P (setup f c t).
Hypothesis P_clear : ∀ t, preserves P (clear t).
Hypothesis P_off : ∀ a name, preserves P (off a name).
Hypothesis P_store : ∀ d w, P w → P (withStore d w).
Hypothesis P_triggered : ∀ l w, P w → P (withTriggered l w).
Hypothesis P_pending : ∀ l w, P w → P (withPending l w).

Local Hint Resolve preserves_bind preserves_ret preserves_throw
  preserves_getSession preserves_assert preserves_containerLookup
  preserves_promise : preserves.
Local Hint Resolve P_setup P_clear P_off : preserves.

Lemma preserves_trigger e : preserves P (trigger e).
Proof. intros w Hw. by apply P_triggered. Qed.

Lemma preserves_storeClear : preserves P storeClear.
Proof. intros w Hw. by apply P_store. Qed.

Lemma preserves_await p : preserves P (await p).
Proof. intros w Hw. by apply P_pending. Qed.

Local Hint Resolve preserves_trigger preserves_storeClear preserves_await : preserves.

Lemma preserves_settle k r : preserves P (settle k r).
Proof.
  destruct k, r; cbn [settle authenticate_then invalidate_then restore_then
                      storeSessionDataUpdated_then];
    eauto 10 with preserves.
Qed.

Lemma preserves_call h payload : preserves P (call h payload).
Proof. destruct h; cbn [call]; eauto with preserves. Qed.

Lemma preserves_callAll hs payload : preserves P (callAll hs payload).
Proof.
  induction hs as [|h hs IH]; cbn [callAll].
  - apply preserves_ret.
  - apply preserves_bind; [apply preserves_call | done].
Qed.

Lemma preserves_authenticate f options : preserves P (authenticate f options).
Proof. unfold authenticate. eauto 10 with preserves. Qed.

Lemma preserves_invalidate : preserves P invalidate.
Proof. unfold invalidate. eauto 10 with preserves. Qed.

Lemma preserves_restore : preserves P restore.
Proof.
  unfold restore. apply preserves_promise, preserves_bind; [by intros w Hw|].
  intros d. destruct (d !! "authenticatorFactory") as [f|];
    [destruct (truthy f)|]; eauto 10 with preserves.
Qed.

Lemma preserves_storeSessionDataUpdated c : preserves P (storeSessionDataUpdated c).
Proof.
  unfold storeSessionDataUpdated.
  destruct (c !! "authenticatorFactory") as [f|];
    [destruct (truthy f)|]; eauto 10 with preserves.
Qed.

Lemma preserves_perform act : preserves P (perform act).
Proof.
  destruct act; cbn [perform].
  - apply preserves_bind; [apply preserves_authenticate|].
    intros [s|p]; eauto with preserves.
  - apply preserves_bind; [apply preserves_invalidate|].
    intros [s|p]; eauto with preserves.
  - apply preserves_bind; [apply preserves_restore|].
    intros [s|p]; eauto with preserves.
  - apply P_setup.
  - apply P_clear.
  - intros w Hw. destruct (pending w !! i) as [p|]; [|done].
    revert w Hw.
    change (preserves P (λ w, (modify (withPending (delete i (pending w)));;
                               settle (callbacks p) r;; mret tt) w)).
    intros w Hw.
    apply (preserves_bind P (modify (withPending (delete i (pending w))))
             (λ _, settle (callbacks p) r;; mret tt)); [| |done].
    + intros w0 Hw0. by apply P_pending.
    + intros _. apply preserves_bind; [apply preserves_settle|].
      intros _. apply preserves_ret.
  - apply preserves_bind; [apply preserves_storeSessionDataUpdated|].
    intros [p|]; eauto with preserves.
  - intros w Hw. unfold authenticatorTrigger. by apply preserves_callAll.
Qed.

Lemma preserves_run acts w : P w → P (run acts w).
Proof.
  revert w. induction acts as [|act acts IH]; intros w Hw; cbn.
  - done.
  - apply IH. by apply preserves_perform.
Qed.

End Invariant.

Lemma factoryOnlyWhenAuthenticated_run snapshot acts :
  factoryOnlyWhenAuthenticated (run acts (startup snapshot)).
Proof.
  apply preserves_run; try done.
  - intros f c t w _.
    by destruct (setup_cases f c t w) as [(a & _ & ->)|[_ ->]].
  - intros t w _. by rewrite clear_Ok.
  - by intros a name w Hw.
Qed.

Lemma singleSubscription_run snapshot acts :
  singleSubscription (run acts (startup snapshot)).
Proof.
  apply preserves_run; try done.
  - intros f c t w Hw.
    destruct (setup_cases f c t w) as [(a & _ & ->)|[_ ->]]; [|done].
    intros a' name. by apply handlers_rebind_length.
  - intros t w Hw. by rewrite clear_Ok.
  - intros a name w Hw a' name'. cbn. unfold listenersOf. cbn.
    rewrite handlers_removeListeners. case_decide; [cbn; lia | apply Hw].
  - intros a name. unfold listenersOf, handlers. cbn.
    rewrite lookup_total_empty. change (inhabitant : Listeners) with (∅ : Listeners). rewrite lookup_total_empty. cbn. lia.
Qed.

(** ** The transitions [setup] and [clear] *)

(** [setup] returns exactly when its factory resolves; otherwise it throws
    with the three properties already written. *)
Lemma setup_returns_iff f c t w :
  (∃ w', setup f c t w = Ok tt w') ↔ (∃ a, resolves f a).
Proof.
  split.
  - intros [w' Hw'].
    destruct (setup_cases f c t w) as [(a & Ha & _)|[_ Hthrow]]; [by exists a|].
    congruence.
  - intros [a Ha]. eexists. by apply setup_Ok.
Qed.

(** C2: right after a completed [setup] or [clear], and so right after a
    successful [authenticate] or [invalidate], the snapshot of the store is
    the content merged with the factory if the session is authenticated and
    empty if it is not. *)
Theorem store_matches_session_after_transition
    (f : value) (a : string) (c options : data) (t : bool) (w : World)
    (Hf : resolves f a) :
  (∃ w', setup f c t w = Ok tt w' ∧
         isAuthenticated (session w') = true ∧ storeMatchesSession w') ∧
  (∃ w', clear t w = Ok tt w' ∧
         isAuthenticated (session w') = false ∧ storeMatchesSession w') ∧
  (isEmpty f = false →
   ∃ w', settling (authenticate f options) (Resolved c) w = Ok Fulfilled w' ∧
         isAuthenticated (session w') = true ∧ storeMatchesSession w') ∧
  (∀ b, resolves (authenticatorFactory (session w)) b →
        ∃ w', settling invalidate (Resolved c) w = Ok Fulfilled w' ∧
              isAuthenticated (session w') = false ∧ storeMatchesSession w').
Proof.
  repeat split.
  - eexists. split; [by apply (setup_Ok f a)|]. done.
  - eexists. split; [apply clear_Ok|]. done.
  - intros Hnonempty. eexists. split.
    + erewrite settling_pending by by apply (authenticate_Ok f a).
      cbn [callbacks settle authenticate_then].
      erewrite bind_Ok by by apply (setup_Ok f a).
      done.
    + done.
  - intros b Hb. eexists. split.
    + erewrite settling_pending by by apply (invalidate_Ok b).
      cbn [callbacks settle]. apply invalidate_then_resolved.
    + done.
Qed.

(** C10: the snapshot [setup] persists is the content laid over the factory:
    every entry of the content is in it unchanged, so a content that has its
    own [authenticatorFactory] entry, different from the factory the session
    is bound to, puts that entry in the store. *)
Theorem setup_persists_content_over_factory
    (f : value) (a : string) (c : data) (t : bool) (v : value) (w : World)
    (Hf : resolves f a)
    (Hv : c !! "authenticatorFactory" = Some v) (Hne : v ≠ f) :
  ∃ w', setup f c t w = Ok tt w' ∧
        store w' = extend {[ "authenticatorFactory" := f ]} c ∧
        (∀ k x, c !! k = Some x → store w' !! k = Some x) ∧
        store w' !! "authenticatorFactory" = Some v ∧
        authenticatorFactory (session w') = f ∧
        store w' !! "authenticatorFactory" ≠ Some (authenticatorFactory (session w')).
Proof.
  eexists. split; [by apply (setup_Ok f a)|]. cbn.
  assert (Hk : ∀ k x, c !! k = Some x →
                 (c ∪ {[ "authenticatorFactory" := f ]} : data) !! k = Some x).
  { intros k x Hk. by apply lookup_union_Some_l. }
  repeat split.
  - done.
  - by rewrite (Hk _ _ Hv).
  - rewrite (Hk _ _ Hv). congruence.
Qed.

(** C7: a [setup] that returns triggers [sessionAuthenticationSucceeded]
    exactly when it was asked to and the session was not authenticated
    before, and then once; a [setup] that was not asked to triggers nothing
    even when it throws; and a successful [authenticate] on a session that
    is already authenticated, with whatever factory, triggers nothing. *)
Theorem setup_triggers_on_the_edge_only
    (f : value) (a : string) (c options : data) (t : bool) (w : World)
    (Hf : resolves f a) :
  (∃ w' fired, setup f c t w = Ok tt w' ∧
     triggered w' = triggered w ++ fired ∧
     (sessionAuthenticationSucceeded ∈ fired ↔
      t = true ∧ isAuthenticated (session w) = false) ∧
     (length fired ≤ 1)%nat) ∧
  (∀ g, triggered (world_of (setup g c false w)) = triggered w) ∧
  (isEmpty f = false → isAuthenticated (session w) = true →
   ∃ w', settling (authenticate f options) (Resolved c) w = Ok Fulfilled w' ∧
         triggered w' = triggered w).
Proof.
  repeat split.
  - eexists _, (firedBySetup t w). split; [by apply (setup_Ok f a)|].
    split; [done|]. unfold firedBySetup.
    destruct t, (isAuthenticated (session w)); cbn;
      rewrite ?elem_of_nil, ?list_elem_of_singleton;
      (split; [|lia]); split; try done; intros [? ?]; congruence.
  - intros g.
    destruct (setup_cases g c false w) as [(b & _ & ->)|[_ ->]]; cbn.
    + by rewrite app_nil_r.
    + done.
  - intros Hnonempty Hauth. eexists. split.
    + erewrite settling_pending by by apply (authenticate_Ok f a).
      cbn [callbacks settle authenticate_then].
      erewrite bind_Ok by by apply (setup_Ok f a).
      done.
    + cbn. unfold firedBySetup. rewrite Hauth. cbn. by rewrite app_nil_r.
Qed.

(** C8: of two [clear(true)] in a row the second changes nothing and
    triggers nothing, so the two together trigger
    [sessionInvalidationSucceeded] at most once. *)
Theorem clear_twice_triggers_once (w : World) :
  ∃ w1 fired,
    clear true w = Ok tt w1 ∧
    clear true w1 = Ok tt w1 ∧
    triggered w1 = triggered w ++ fired ∧
    (fired = [] ∨ fired = [sessionInvalidationSucceeded]) ∧
    isAuthenticated (session w1) = false.
Proof.
  eexists _, (firedByClear true w). split; [apply clear_Ok|].
  split; [|split; [done|split; [|done]]].
  - rewrite clear_Ok. cbn. by rewrite app_nil_r.
  - unfold firedByClear. destruct (isAuthenticated (session w)); cbn; auto.
Qed.

(** ** [authenticate], [invalidate] and [restore] when the authenticator
       rejects or resolves *)

(** C4: when the authenticator rejects [authenticate] with [e], the session
    ends unauthenticated with empty content, the store is cleared,
    [sessionAuthenticationFailed] is triggered with [e], and the promise
    rejects with [e]. *)
Theorem authenticate_rejected
    (f : value) (a : string) (options : data) (e : value) (w : World)
    (Hnonempty : isEmpty f = false) (Hf : resolves f a) :
  ∃ w', settling (authenticate f options) (Rejected e) w =
          Ok (RejectedWith (Some e)) w' ∧
        isAuthenticated (session w') = false ∧
        authenticatorFactory (session w') = VNull ∧
        content (session w') = ∅ ∧
        store w' = ∅ ∧
        triggered w' = triggered w ++ [sessionAuthenticationFailed e].
Proof.
  eexists. split.
  - erewrite settling_pending by by apply (authenticate_Ok f a).
    cbn [callbacks settle authenticate_then].
    erewrite bind_Ok by apply clear_Ok.
    erewrite bind_Ok by done.
    done.
  - cbn. by rewrite app_nil_r.
Qed.

(** C5: when the authenticator rejects [invalidate] with [e], the session,
    the store and the listeners are as they were, the session is still
    authenticated, [sessionInvalidationFailed] is triggered with [e], and
    the promise rejects with [e]. *)
Theorem invalidate_rejected
    (a : string) (e : value) (w : World)
    (Hauth : isAuthenticated (session w) = true)
    (Hf : resolves (authenticatorFactory (session w)) a) :
  ∃ w', settling invalidate (Rejected e) w = Ok (RejectedWith (Some e)) w' ∧
        session w' = session w ∧
        isAuthenticated (session w') = true ∧
        store w' = store w ∧
        listeners w' = listeners w ∧
        triggered w' = triggered w ++ [sessionInvalidationFailed e].
Proof.
  eexists. split.
  - erewrite settling_pending by by apply (invalidate_Ok a).
    cbn [callbacks settle invalidate_then].
    erewrite bind_Ok by done.
    done.
  - done.
Qed.

(** C9: when the snapshot of the store carries a factory and its
    authenticator resolves [restore] with [c], the session becomes
    authenticated with that factory and content [c], and no event is
    triggered. *)
Theorem restore_resolved_is_silent
    (f : value) (a : string) (c : data) (w : World)
    (Hsnapshot : store w !! "authenticatorFactory" = Some f)
    (Htruthy : truthy f = true) (Hf : resolves f a) :
  ∃ w', settling restore (Resolved c) w = Ok Fulfilled w' ∧
        isAuthenticated (session w') = true ∧
        authenticatorFactory (session w') = f ∧
        content (session w') = c ∧
        triggered w' = triggered w.
Proof.
  eexists. split.
  - erewrite settling_pending by by apply (restore_Ok f a).
    cbn [callbacks settle restore_then].
    erewrite bind_Ok by by apply (setup_Ok f a).
    done.
  - cbn. by rewrite app_nil_r.
Qed.

(** C6, as the code has it: when the snapshot of the store carries a factory
    and its authenticator rejects [restore] with [e], the promise rejects
    with no reason at all, [e] is dropped, and the store is cleared. *)
Theorem restore_rejected_drops_the_error
    (f : value) (a : string) (e : value) (w : World)
    (Hsnapshot : store w !! "authenticatorFactory" = Some f)
    (Htruthy : truthy f = true) (Hf : resolves f a) :
  ∃ w', settling restore (Rejected e) w = Ok (RejectedWith None) w' ∧
        store w' = ∅ ∧
        session w' = session w ∧
        triggered w' = triggered w.
Proof.
  eexists. split.
  - erewrite settling_pending by by apply (restore_Ok f a).
    cbn [callbacks settle restore_then].
    erewrite bind_Ok by done.
    done.
  - done.
Qed.

(** C3, as the code has it: when [invalidate] completes successfully, the
    authenticator it was called on holds no [sessionDataUpdated] listener,
    also when the world changed between the call and the settling of the
    authenticator; and in every state a run reaches, no authenticator holds
    more than one listener of an event. *)
Theorem invalidate_unbinds_update_listener
    (a : string) (c : data) (w : World)
    (Hf : resolves (authenticatorFactory (session w)) a) :
  (∃ w', settling invalidate (Resolved c) w = Ok Fulfilled w' ∧
         listenersOf w' a "sessionDataUpdated" = []) ∧
  (∀ later, ∃ w', invalidate_then a (Resolved c) later = Ok Fulfilled w' ∧
                  listenersOf w' a "sessionDataUpdated" = []) ∧
  (∀ snapshot acts, singleSubscription (run acts (startup snapshot))).
Proof.
  assert (Hoff : ∀ later, ∃ w', invalidate_then a (Resolved c) later = Ok Fulfilled w' ∧
                                listenersOf w' a "sessionDataUpdated" = []).
  { intros later. eexists. split; [apply invalidate_then_resolved|].
    unfold listenersOf. cbn. by rewrite handlers_removeListeners, decide_True. }
  split; [|split; [exact Hoff | apply singleSubscription_run]].
  destruct (Hoff w) as (w' & Hthen & Hnone). exists w'. split; [|done].
  erewrite settling_pending by by apply (invalidate_Ok a).
  done.
Qed.

End Properties.

(** * The methods beyond the claims *)

Section Methods.

Context {container : Container}.

(** ** [authenticate] *)

(** X1: when the factory is not empty and resolves, and the authenticator
    resolves with [c], [authenticate] fulfils; the session is authenticated
    with that factory and content [c], the store holds [c] laid over the
    factory, the authenticator holds the two listeners, and
    [sessionAuthenticationSucceeded] is triggered once if the session was
    not authenticated and not at all if it was. *)
Theorem authenticate_resolved
    (f : value) (a : string) (options c : data) (w : World)
    (Hnonempty : isEmpty f = false) (Hf : resolves f a) :
  ∃ w', settling (authenticate f options) (Resolved c) w = Ok Fulfilled w' ∧
        session w' = mkSession true f c ∧
        store w' = extend {[ "authenticatorFactory" := f ]} c ∧
        listenersOf w' a "sessionDataUpdated" = [onSessionDataUpdated] ∧
        listenersOf w' a "sessionDataInvalidated" = [onSessionDataInvalidated] ∧
        triggered w' =
          triggered w ++
          (if isAuthenticated (session w) then [] else [sessionAuthenticationSucceeded]).
Proof.
  eexists. split.
  - erewrite settling_pending by by apply (authenticate_Ok f a).
    cbn [callbacks settle authenticate_then].
    erewrite bind_Ok by by apply (setup_Ok f a).
    done.
  - unfold listenersOf. cbn.
    rewrite handlers_rebind_updated, handlers_rebind_invalidated.
    unfold firedBySetup, extend.
    destruct (isAuthenticated (session w)); cbn; repeat split; done.
Qed.


(** ** [invalidate] *)

(** X3: when the session is authenticated with a factory that resolves and
    the authenticator resolves, [invalidate] fulfils; the session is
    unauthenticated with no factory and empty content, the store is empty,
    and [sessionInvalidationSucceeded] is triggered exactly once. *)
Theorem invalidate_resolved
    (a : string) (c : data) (w : World)
    (Hauth : isAuthenticated (session w) = true)
    (Hf : resolves (authenticatorFactory (session w)) a) :
  ∃ w', settling invalidate (Resolved c) w = Ok Fulfilled w' ∧
        session w' = mkSession false VNull ∅ ∧
        store w' = ∅ ∧
        triggered w' = triggered w ++ [sessionInvalidationSucceeded].
Proof.
  eexists. split.
  - erewrite settling_pending by by apply (invalidate_Ok a).
    cbn [callbacks settle]. apply invalidate_then_resolved.
  - cbn. unfold firedByClear. rewrite Hauth. done.
Qed.

(** X4: in every state a run reaches in which the session is not
    authenticated, [invalidate] finds no authenticator: its promise rejects
    with what the lookup of [null] threw, the world is as it was, and
    [sessionInvalidationFailed] is not triggered. *)
Theorem invalidate_when_unauthenticated
    (r : Outcome) (w : World)
    (Hreach : reachable w) (Hunauth : isAuthenticated (session w) = false) :
  settling invalidate r w = Ok (RejectedByThrow (LookupFailed VNull)) w.
Proof.
  destruct Hreach as (snapshot & acts & ->).
  destruct (factoryOnlyWhenAuthenticated_run snapshot acts Hunauth) as [Hnull _].
  set (w := run acts (startup snapshot)) in *.
  assert (Hcall : invalidate w = Ok (inl (RejectedByThrow (LookupFailed VNull))) w).
  { unfold invalidate, promise.
    rewrite (bind_Ok _ _ w (session w) w) by done.
    rewrite Hnull. done. }
  unfold settling. by erewrite bind_Ok by exact Hcall.
Qed.

(** ** [restore] *)

(** X5: when the snapshot of the store has no [authenticatorFactory], or has
    one that is falsy, [restore] asks no authenticator: it clears the store
    and rejects with no reason, and the session, the listeners and the
    events are as they were. *)
Theorem restore_nothing_to_restore
    (r : Outcome) (w : World)
    (Hnone : store w !! "authenticatorFactory" = None ∨
             ∃ v, store w !! "authenticatorFactory" = Some v ∧ truthy v = false) :
  settling restore r w = Ok (RejectedWith None) (withStore ∅ w).
Proof.
  assert (Hcall : restore w = Ok (inl (RejectedWith None)) (withStore ∅ w)).
  { unfold restore, promise.
    rewrite (bind_Ok _ _ w (store w) w) by done.
    destruct Hnone as [->|(v & -> & ->)]; done. }
  unfold settling. by erewrite bind_Ok by exact Hcall.
Qed.

(** X6: when the snapshot of the store has a truthy [authenticatorFactory]
    that resolves to no authenticator, the promise of [restore] rejects with
    what the lookup threw and nothing is written: the snapshot stays in the
    store. *)
Theorem restore_unknown_factory
    (f : value) (r : Outcome) (w : World)
    (Hsnapshot : store w !! "authenticatorFactory" = Some f)
    (Htruthy : truthy f = true)
    (Hno : ∀ a, ¬ resolves f a) :
  settling restore r w = Ok (RejectedByThrow (LookupFailed f)) w.
Proof.
  destruct (containerLookup_cases f w) as [(a & Ha & _)|[_ Hthrow]];
    [by destruct (Hno a)|].
  assert (Hcall : restore w = Ok (inl (RejectedByThrow (LookupFailed f))) w).
  { unfold restore, promise.
    rewrite (bind_Ok _ _ w (store w) w) by done.
    rewrite Hsnapshot, Htruthy.
    by erewrite bind_Throw by exact Hthrow. }
  unfold settling. by erewrite bind_Ok by exact Hcall.
Qed.

(** X7: what [setup] persists is what [restore] reads back.  When the
    content has no [authenticatorFactory] entry of its own and the factory
    is truthy, [restore] after [setup], in the same world or in the one the
    next page load starts in, asks the authenticator of that factory to
    restore exactly that content; after a [clear] it finds nothing. *)
Theorem setup_then_restore
    (f : value) (a : string) (c : data) (t : bool) (w : World)
    (Hf : resolves f a) (Htruthy : truthy f = true)
    (Hown : c !! "authenticatorFactory" = None) :
  ∃ w1, setup f c t w = Ok tt w1 ∧
        restore w1 = Ok (inr (mkPending a (restoreWith c) (thenOfRestore f))) w1 ∧
        restore (startup (store w1)) =
          Ok (inr (mkPending a (restoreWith c) (thenOfRestore f))) (startup (store w1)) ∧
        ∃ w2, clear t w1 = Ok tt w2 ∧
              restore w2 = Ok (inl (RejectedWith None)) w2 ∧
              restore (startup (store w2)) =
                Ok (inl (RejectedWith None)) (startup (store w2)).
Proof.
  assert (Hback : delete "authenticatorFactory"
                    (c ∪ {[ "authenticatorFactory" := f ]} : data) = c).
  { rewrite delete_union, delete_singleton_eq, (delete_id c) by done.
    apply (right_id ∅ (∪)). }
  assert (Hread : (c ∪ {[ "authenticatorFactory" := f ]} : data)
                    !! "authenticatorFactory" = Some f).
  { by rewrite lookup_union_r, lookup_singleton_eq. }
  eexists. split; [by apply (setup_Ok f a)|].
  split; [|split].
  - erewrite restore_Ok; [|exact Hread|exact Htruthy|exact Hf].
    cbn [store]. by rewrite Hback.
  - erewrite restore_Ok; [|exact Hread|exact Htruthy|exact Hf].
    cbn [store startup]. by rewrite Hback.
  - eexists. split; [apply clear_Ok|]. split; done.
Qed.

(** ** The listener on the store *)

(** X8: when the store reports data with no [authenticatorFactory], or with
    a falsy one, the listener clears the session at once: no factory, empty
    content, empty store, [sessionInvalidationSucceeded] triggered once if
    the session was authenticated and not at all if it was not; the
    listeners of the authenticators stay bound. *)
Theorem store_update_without_factory
    (payload : data) (w : World)
    (Hnone : payload !! "authenticatorFactory" = None ∨
             ∃ v, payload !! "authenticatorFactory" = Some v ∧ truthy v = false) :
  ∃ w', storeSessionDataUpdated payload w = Ok None w' ∧
        session w' = mkSession false VNull ∅ ∧
        store w' = ∅ ∧
        listeners w' = listeners w ∧
        triggered w' =
          triggered w ++
          (if isAuthenticated (session w) then [sessionInvalidationSucceeded] else []).
Proof.
  eexists. split.
  - unfold storeSessionDataUpdated.
    destruct Hnone as [->|(v & -> & ->)];
      by erewrite bind_Ok by apply clear_Ok.
  - done.
Qed.

(** X9: when the store reports data with a truthy [authenticatorFactory]
    that resolves, the listener asks that authenticator to restore the data
    without the factory and writes nothing until it settles.  If it
    resolves with [c] the session is authenticated with the reported factory
    and [c], and [sessionAuthenticationSucceeded] is triggered only if the
    session was not authenticated; if it rejects the session is cleared,
    and [sessionInvalidationSucceeded] is triggered only if the session was
    authenticated. *)
Theorem store_update_with_factory
    (payload : data) (f : value) (a : string) (c : data) (e : value) (w : World)
    (Hpayload : payload !! "authenticatorFactory" = Some f)
    (Htruthy : truthy f = true) (Hf : resolves f a) :
  storeSessionDataUpdated payload w =
    Ok (Some (mkPending a (restoreWith (delete "authenticatorFactory" payload))
                (thenOfStoreUpdate f))) w ∧
  (∃ w', settle (thenOfStoreUpdate f) (Resolved c) w = Ok Fulfilled w' ∧
         session w' = mkSession true f c ∧
         store w' = extend {[ "authenticatorFactory" := f ]} c ∧
         triggered w' =
           triggered w ++
           (if isAuthenticated (session w) then [] else [sessionAuthenticationSucceeded])) ∧
  (∃ w', settle (thenOfStoreUpdate f) (Rejected e) w = Ok Fulfilled w' ∧
         session w' = mkSession false VNull ∅ ∧
         store w' = ∅ ∧
         triggered w' =
           triggered w ++
           (if isAuthenticated (session w) then [sessionInvalidationSucceeded] else [])).
Proof.
  split; [|split].
  - unfold storeSessionDataUpdated. rewrite Hpayload, Htruthy.
    by erewrite bind_Ok by by apply containerLookup_resolves.
  - eexists. split.
    + cbn [settle storeSessionDataUpdated_then].
      by erewrite bind_Ok by by apply (setup_Ok f a).
    + cbn. unfold firedBySetup, extend.
      destruct (isAuthenticated (session w)); cbn; repeat split; done.
  - eexists. split.
    + cbn [settle storeSessionDataUpdated_then].
      by erewrite bind_Ok by apply clear_Ok.
    + done.
Qed.

(** ** The listeners on the authenticators *)

(** X10: when an authenticator that holds the [sessionDataUpdated] listener
    triggers that event while the factory of the session resolves, the
    session keeps its factory and takes the reported data as its content,
    the store is rewritten to match, and no event is triggered.  The
    authenticator that reports need not be the one of the session. *)
Theorem authenticator_update_refreshes
    (a b : string) (payload : data) (w : World)
    (Hbound : listenersOf w a "sessionDataUpdated" = [onSessionDataUpdated])
    (Hf : resolves (authenticatorFactory (session w)) b) :
  ∃ w', authenticatorTrigger a "sessionDataUpdated" payload w = Ok tt w' ∧
        session w' = mkSession true (authenticatorFactory (session w)) payload ∧
        store w' =
          extend {[ "authenticatorFactory" := authenticatorFactory (session w) ]} payload ∧
        listenersOf w' b "sessionDataUpdated" = [onSessionDataUpdated] ∧
        triggered w' = triggered w.
Proof.
  pose proof (setup_Ok _ b payload false w Hf) as Hsetup.
  eexists. split.
  - unfold authenticatorTrigger. rewrite Hbound. cbn [callAll].
    erewrite bind_Ok; [done|].
    cbn [call]. rewrite (bind_Ok _ _ w (session w) w) by done.
    exact Hsetup.
  - unfold listenersOf. cbn. rewrite handlers_rebind_updated.
    by rewrite app_nil_r.
Qed.

(** X11: when an authenticator that holds the [sessionDataInvalidated]
    listener triggers that event, the session is cleared whatever its
    factory was: no factory, empty content, empty store, and
    [sessionInvalidationSucceeded] triggered once if the session was
    authenticated and not at all if it was not.  No listener is removed. *)
Theorem authenticator_invalidation_clears
    (a : string) (payload : data) (w : World)
    (Hbound : listenersOf w a "sessionDataInvalidated" = [onSessionDataInvalidated]) :
  ∃ w', authenticatorTrigger a "sessionDataInvalidated" payload w = Ok tt w' ∧
        session w' = mkSession false VNull ∅ ∧
        store w' = ∅ ∧
        listeners w' = listeners w ∧
        triggered w' =
          triggered w ++
          (if isAuthenticated (session w) then [sessionInvalidationSucceeded] else []).
Proof.
  eexists. split.
  - unfold authenticatorTrigger. rewrite Hbound. cbn [callAll call].
    by erewrite bind_Ok by apply clear_Ok.
  - done.
Qed.

(** X12: [setup] and [clear] take no listener away from an authenticator
    other than the one [setup] binds: [clear] leaves every listener where it
    is, and [setup] with a factory that resolves to [a] changes the
    listeners of [a] only. *)
Theorem other_listeners_stay_bound
    (f : value) (a : string) (c : data) (t : bool) (w : World)
    (Hf : resolves f a) :
  (∃ w', setup f c t w = Ok tt w' ∧
         ∀ a' name, a' ≠ a → listenersOf w' a' name = listenersOf w a' name) ∧
  (∃ w', clear t w = Ok tt w' ∧ listeners w' = listeners w).
Proof.
  split.
  - eexists. split; [by apply (setup_Ok f a)|].
    intros a' name Hne. unfold listenersOf. cbn.
    apply handlers_rebind_other. auto.
  - eexists. split; [apply clear_Ok|]. done.
Qed.

(** ** Along every run *)

Lemma boundBySession_perform act : preserves boundBySession (perform act).
Proof.
  apply preserves_perform; try done.
  - intros f c t w Hw.
    destruct (setup_cases f c t w) as [(a & [_ Ha] & ->)|[_ ->]]; [|done].
    intros a' name. unfold listenersOf. cbn.
    destruct (decide (a = a')) as [<-|Hne].
    + destruct (decide (name = "sessionDataUpdated")) as [->|Hu].
      { right. split; [done|]. left. by rewrite handlers_rebind_updated. }
      destruct (decide (name = "sessionDataInvalidated")) as [->|Hi].
      { right. split; [done|]. right. by rewrite handlers_rebind_invalidated. }
      rewrite handlers_rebind_other by auto. apply Hw.
    + rewrite handlers_rebind_other by auto. apply Hw.
  - intros t w Hw. by rewrite clear_Ok.
  - intros a name w Hw a' name'. unfold listenersOf. cbn.
    rewrite handlers_removeListeners. case_decide; [by left | apply Hw].
Qed.

Lemma boundBySession_startup snapshot : boundBySession (startup snapshot).
Proof.
  intros a name. left. unfold listenersOf, handlers. cbn.
  rewrite lookup_total_empty. change (inhabitant : Listeners) with (∅ : Listeners).
  by rewrite lookup_total_empty.
Qed.

Lemma boundBySession_run snapshot acts :
  boundBySession (run acts (startup snapshot)).
Proof.
  generalize (boundBySession_startup snapshot). generalize (startup snapshot).
  induction acts as [|act acts IH]; intros w Hw; [done|].
  cbn. apply IH. by apply boundBySession_perform.
Qed.

(** X13: in every state a run reaches, the listeners an authenticator holds
    are those [bindToAuthenticatorEvents] registered, so an event of an
    authenticator that is not in the container, or an event of another name
    than [sessionDataUpdated] and [sessionDataInvalidated], changes
    nothing. *)
Theorem only_bound_listeners_run
    (a name : string) (payload : data) (w : World)
    (Hreach : reachable w)
    (Hforeign : a ∉ registered ∨
                (name ≠ "sessionDataUpdated" ∧ name ≠ "sessionDataInvalidated")) :
  boundBySession w ∧ authenticatorTrigger a name payload w = Ok tt w.
Proof.
  destruct Hreach as (snapshot & acts & ->).
  pose proof (boundBySession_run snapshot acts) as Hbound.
  split; [done|].
  unfold authenticatorTrigger.
  destruct (Hbound a name) as [->|[Ha [[Hn _]|[Hn _]]]]; [done| |];
    destruct Hforeign as [?|[? ?]]; done.
Qed.


(** ** The success events *)

Lemma onTheEdge_quiet w w' : triggered w' = triggered w → onTheEdge w w'.
Proof.
  intros Hsame. exists []. rewrite app_nil_r.
  split; [done|]. split; intros Hin; by apply elem_of_nil in Hin.
Qed.

Lemma onTheEdge_from w0 w w' :
  session w0 = session w → triggered w0 = triggered w →
  onTheEdge w0 w' → onTheEdge w w'.
Proof.
  intros Hs Ht (fired & Hfired & Hup & Hdown).
  exists fired. by rewrite <- Hs, <- Ht.
Qed.

Lemma onTheEdge_setup f c t w : onTheEdge w (world_of (setup f c t w)).
Proof.
  destruct (setup_cases f c t w) as [(a & _ & ->)|[_ ->]]; [|by apply onTheEdge_quiet].
  exists (firedBySetup t w). split; [done|]. cbn. unfold firedBySetup.
  destruct t, (isAuthenticated (session w)); cbn;
    rewrite ?elem_of_nil, ?list_elem_of_singleton; split; done.
Qed.

Lemma onTheEdge_clear t w : onTheEdge w (world_of (clear t w)).
Proof.
  rewrite clear_Ok. exists (firedByClear t w). split; [done|]. cbn.
  unfold firedByClear.
  destruct t, (isAuthenticated (session w)); cbn;
    rewrite ?elem_of_nil, ?list_elem_of_singleton; split; done.
Qed.

Lemma onTheEdge_failure e w w' :
  triggered w' = triggered w ++ [e] →
  e ≠ sessionAuthenticationSucceeded → e ≠ sessionInvalidationSucceeded →
  onTheEdge w w'.
Proof.
  intros Hlog Hup Hdown. exists [e]. split; [done|].
  rewrite !list_elem_of_singleton. split; intros <-; done.
Qed.

Lemma world_of_then_ret {A B} (m : M A) (b : B) w :
  world_of ((m ;; mret b) w) = world_of (m w).
Proof. unfold mbind, M_bind. by destruct (m w). Qed.

Lemma onTheEdge_settle k r w : onTheEdge w (world_of (settle k r w)).
Proof.
  destruct k as [f|a|f|f], r as [c|e]; cbn [settle authenticate_then invalidate_then
    restore_then storeSessionDataUpdated_then]; rewrite ?world_of_then_ret.
  - apply onTheEdge_setup.
  - erewrite bind_Ok by apply clear_Ok.
    apply (onTheEdge_failure (sessionAuthenticationFailed e)); [|done|done].
    cbn. by rewrite app_nil_r.
  - erewrite bind_Ok by done. rewrite world_of_then_ret.
    eapply onTheEdge_from; [| |apply onTheEdge_clear]; done.
  - by apply (onTheEdge_failure (sessionInvalidationFailed e)).
  - apply onTheEdge_setup.
  - by apply onTheEdge_quiet.
  - apply onTheEdge_setup.
  - apply onTheEdge_clear.
Qed.

Lemma preserves_unchanged_authenticate s l f options :
  preserves (λ w, session w = s ∧ triggered w = l) (authenticate f options).
Proof.
  unfold authenticate.
  auto using preserves_bind, preserves_assert, preserves_promise,
    preserves_containerLookup, preserves_ret.
Qed.

Lemma preserves_unchanged_invalidate s l :
  preserves (λ w, session w = s ∧ triggered w = l) invalidate.
Proof.
  unfold invalidate.
  auto using preserves_bind, preserves_getSession, preserves_promise,
    preserves_containerLookup, preserves_ret.
Qed.

Lemma preserves_unchanged_restore s l :
  preserves (λ w, session w = s ∧ triggered w = l) restore.
Proof.
  unfold restore. apply preserves_promise, preserves_bind; [by intros w Hw|].
  intros d. destruct (d !! "authenticatorFactory") as [f|]; [destruct (truthy f)|];
    repeat first [ apply preserves_bind | apply preserves_ret
                 | apply preserves_containerLookup | by intros w Hw | intros ? ].
Qed.

Lemma preserves_unchanged_awaiting s l (x : Settled + Pending) :
  preserves (λ w, session w = s ∧ triggered w = l)
    (match x with inr p => await p | inl _ => mret tt end).
Proof. destruct x; by intros w Hw. Qed.

(** X15: from every state a run reaches, whatever happens next only adds
    events, and adds [sessionAuthenticationSucceeded] only if it takes the
    session from not authenticated to authenticated, and
    [sessionInvalidationSucceeded] only if it takes the session from
    authenticated to not authenticated. *)
Theorem success_events_mark_transitions
    (act : Action) (w : World) (Hreach : reachable w) :
  onTheEdge w (step w act).
Proof.
  assert (Hquiet : ∀ m : M unit,
    preserves (λ w', session w' = session w ∧ triggered w' = triggered w) m →
    onTheEdge w (world_of (m w))).
  { intros m Hm. apply onTheEdge_quiet. by apply Hm. }
  destruct Hreach as (snapshot & acts & Hw).
  pose proof (boundBySession_run snapshot acts) as Hbound. rewrite <- Hw in Hbound.
  clear Hw. unfold step. destruct act as [f o| | |f c t|t|i r|payload|a name payload];
    cbn [perform].
  - apply Hquiet, preserves_bind;
      [apply preserves_unchanged_authenticate | apply preserves_unchanged_awaiting].
  - apply Hquiet, preserves_bind;
      [apply preserves_unchanged_invalidate | apply preserves_unchanged_awaiting].
  - apply Hquiet, preserves_bind;
      [apply preserves_unchanged_restore | apply preserves_unchanged_awaiting].
  - apply onTheEdge_setup.
  - apply onTheEdge_clear.
  - destruct (pending w !! i) as [p|]; [|by apply onTheEdge_quiet].
    erewrite bind_Ok by done. rewrite world_of_then_ret.
    eapply onTheEdge_from; [| |apply onTheEdge_settle]; done.
  - unfold storeSessionDataUpdated.
    assert (Hclear : onTheEdge w (world_of
              ((x ← (clear true;; mret None);
                match x with Some p => await p | None => mret tt end) w))).
    { erewrite bind_Ok by by erewrite bind_Ok by apply clear_Ok.
      pose proof (onTheEdge_clear true w) as Hedge.
      by rewrite clear_Ok in Hedge. }
    destruct (payload !! "authenticatorFactory") as [f|]; [|exact Hclear].
    destruct (truthy f); [|exact Hclear].
    apply Hquiet, preserves_bind.
    + apply preserves_bind; [apply preserves_containerLookup|].
      intros b. apply preserves_ret.
    + intros [p|]; by intros w' Hw'.
  - unfold authenticatorTrigger.
    destruct (Hbound a name) as [->|[_ [[_ ->]|[_ ->]]]]; cbn [callAll].
    + by apply onTheEdge_quiet.
    + rewrite world_of_then_ret. cbn [call].
      rewrite (bind_Ok _ _ w (session w) w) by done. apply onTheEdge_setup.
    + rewrite world_of_then_ret. apply onTheEdge_clear.
Qed.

(** ** Logging in and out *)

(** X16: a session that is not authenticated, authenticated with a factory
    that is not empty and resolves and then invalidated, both authenticators'
    promises resolving, is again unauthenticated with no factory, empty
    content and an empty store, and has triggered
    [sessionAuthenticationSucceeded] and then
    [sessionInvalidationSucceeded], each once. *)
Theorem login_then_logout
    (f : value) (a : string) (options c c' : data) (w : World)
    (Hunauth : isAuthenticated (session w) = false)
    (Hnonempty : isEmpty f = false) (Hf : resolves f a) :
  ∃ w1 w2,
    settling (authenticate f options) (Resolved c) w = Ok Fulfilled w1 ∧
    settling invalidate (Resolved c') w1 = Ok Fulfilled w2 ∧
    session w2 = mkSession false VNull ∅ ∧
    store w2 = ∅ ∧
    triggered w2 =
      triggered w ++ [sessionAuthenticationSucceeded; sessionInvalidationSucceeded].
Proof.
  eexists _, _. split; [|split].
  - erewrite settling_pending by by apply (authenticate_Ok f a).
    cbn [callbacks settle authenticate_then].
    by erewrite bind_Ok by by apply (setup_Ok f a).
  - erewrite settling_pending by by apply (invalidate_Ok a).
    cbn [callbacks settle]. apply invalidate_then_resolved.
  - cbn. unfold firedBySetup, firedByClear. rewrite Hunauth. cbn.
    by rewrite <- app_assoc.
Qed.

(** X17: after a successful [invalidate] from a state a run reaches, no
    event of the authenticator it was called on changes anything: its
    [sessionDataUpdated] listener is gone, and the [sessionDataInvalidated]
    listener that is left clears a session that is already clear and
    triggers nothing. *)
Theorem logout_is_final_for_its_authenticator
    (a : string) (c : data) (w : World)
    (Hreach : reachable w)
    (Hf : resolves (authenticatorFactory (session w)) a) :
  ∃ w', settling invalidate (Resolved c) w = Ok Fulfilled w' ∧
        ∀ name payload, authenticatorTrigger a name payload w' = Ok tt w'.
Proof.
  destruct Hreach as (snapshot & acts & Hw).
  pose proof (boundBySession_run snapshot acts) as Hbound. rewrite <- Hw in Hbound.
  clear Hw. eexists. split.
  - erewrite settling_pending by by apply (invalidate_Ok a).
    cbn [callbacks settle]. apply invalidate_then_resolved.
  - intros name payload. unfold authenticatorTrigger, listenersOf. cbn [listeners].
    rewrite handlers_removeListeners. case_decide as Hname; [done|].
    destruct (Hbound a name) as [Hnone|[_ [[-> _]|[_ Hinv]]]].
    + unfold listenersOf in Hnone. by rewrite Hnone.
    + by destruct Hname.
    + unfold listenersOf in Hinv. rewrite Hinv. cbn [callAll call].
      erewrite bind_Ok by apply clear_Ok.
      cbn. by rewrite app_nil_r.
Qed.

(** ** Where the factory is never missing *)

Lemma authenticate_cases f options w :
  authenticate f options w = Throw AssertionFailed w ∨
  authenticate f options w = Ok (inl (RejectedByThrow (LookupFailed f))) w ∨
  ∃ a, resolves f a ∧
       authenticate f options w =
       Ok (inr (mkPending a (authenticateWith options) (thenOfAuthenticate f))) w.
Proof.
  destruct (isEmpty f) eqn:He.
  - left. unfold authenticate. by rewrite He.
  - right. destruct (containerLookup_cases f w) as [(a & Ha & _)|[_ Hthrow]].
    + right. exists a. split; [done|]. by apply authenticate_Ok.
    + left. unfold authenticate. rewrite He. cbn [negb assert].
      rewrite (bind_Ok _ _ w tt w) by done.
      unfold promise. by erewrite bind_Throw by exact Hthrow.
Qed.

Lemma invalidate_cases w :
  invalidate w =
    Ok (inl (RejectedByThrow (LookupFailed (authenticatorFactory (session w))))) w ∨
  ∃ a, invalidate w =
       Ok (inr (mkPending a (invalidateWith (content (session w))) (thenOfInvalidate a))) w.
Proof.
  destruct (containerLookup_cases (authenticatorFactory (session w)) w)
    as [(a & Ha & _)|[_ Hthrow]].
  - right. exists a. by apply invalidate_Ok.
  - left. unfold invalidate, promise.
    rewrite (bind_Ok _ _ w (session w) w) by done.
    by erewrite bind_Throw by exact Hthrow.
Qed.

Lemma restore_cases w :
  restore w = Ok (inl (RejectedWith None)) (withStore ∅ w) ∨
  (∃ f, restore w = Ok (inl (RejectedByThrow (LookupFailed f))) w) ∨
  ∃ f a, resolves f a ∧
         restore w =
         Ok (inr (mkPending a (restoreWith (delete "authenticatorFactory" (store w)))
                    (thenOfRestore f))) w.
Proof.
  destruct (store w !! "authenticatorFactory") as [f|] eqn:Hf.
  - destruct (truthy f) eqn:Ht.
    + right. destruct (containerLookup_cases f w) as [(a & Ha & _)|[_ Hthrow]].
      * right. exists f, a. split; [done|]. by apply restore_Ok.
      * left. exists f. unfold restore, promise.
        rewrite (bind_Ok _ _ w (store w) w) by done. rewrite Hf, Ht.
        by erewrite bind_Throw by exact Hthrow.
    + left. unfold restore, promise.
      rewrite (bind_Ok _ _ w (store w) w) by done. by rewrite Hf, Ht.
  - left. unfold restore, promise.
    rewrite (bind_Ok _ _ w (store w) w) by done. by rewrite Hf.
Qed.

Lemma storeSessionDataUpdated_cases payload w :
  (∃ w', clear true w = Ok tt w' ∧ storeSessionDataUpdated payload w = Ok None w') ∨
  (∃ f, storeSessionDataUpdated payload w = Throw (LookupFailed f) w) ∨
  ∃ f a, resolves f a ∧
         storeSessionDataUpdated payload w =
         Ok (Some (mkPending a (restoreWith (delete "authenticatorFactory" payload))
                     (thenOfStoreUpdate f))) w.
Proof.
  assert (Hclear : ∃ w', clear true w = Ok tt w' ∧
                         (clear true;; mret (None : option Pending)) w = Ok None w').
  { eexists. split; [apply clear_Ok|]. by erewrite bind_Ok by apply clear_Ok. }
  unfold storeSessionDataUpdated.
  destruct (payload !! "authenticatorFactory") as [f|]; [|by left].
  destruct (truthy f); [|by left].
  right. destruct (containerLookup_cases f w) as [(a & Ha & Hok)|[_ Hthrow]].
  - right. exists f, a. split; [done|]. by erewrite bind_Ok by exact Hok.
  - left. exists f. by erewrite bind_Throw by exact Hthrow.
Qed.

Lemma boundToKnownFactory_await p w :
  awaitsKnownFactory p → boundToKnownFactory w →
  boundToKnownFactory (withPending (pending w ++ [p]) w).
Proof.
  intros Hp [Hs Hps]. split; [done|]. cbn.
  apply Forall_app. split; [done|]. by apply Forall_singleton.
Qed.

Lemma boundToKnownFactory_setup f a c t w :
  resolves f a → Forall awaitsKnownFactory (pending w) →
  boundToKnownFactory (world_of (setup f c t w)).
Proof.
  intros Ha Hps. rewrite (setup_Ok f a) by done. split; [|done].
  intros _. by exists a.
Qed.

Lemma boundToKnownFactory_clear t w :
  Forall awaitsKnownFactory (pending w) →
  boundToKnownFactory (world_of (clear t w)).
Proof. intros Hps. rewrite clear_Ok. by split. Qed.

Lemma boundToKnownFactory_settle k r w :
  match k with
  | thenOfAuthenticate f | thenOfRestore f | thenOfStoreUpdate f => ∃ a, resolves f a
  | thenOfInvalidate _ => True
  end →
  boundToKnownFactory w →
  boundToKnownFactory (world_of (settle k r w)).
Proof.
  intros Hk [Hs Hps].
  destruct k as [f|a|f|f], r as [c|e]; cbn [settle authenticate_then invalidate_then
    restore_then storeSessionDataUpdated_then]; rewrite ?world_of_then_ret.
  - destruct Hk as [b Hb]. by apply (boundToKnownFactory_setup f b).
  - erewrite bind_Ok by apply clear_Ok. by split.
  - erewrite bind_Ok by done. rewrite world_of_then_ret.
    by apply boundToKnownFactory_clear.
  - by split.
  - destruct Hk as [b Hb]. by apply (boundToKnownFactory_setup f b).
  - by split.
  - destruct Hk as [b Hb]. by apply (boundToKnownFactory_setup f b).
  - by apply boundToKnownFactory_clear.
Qed.

Lemma boundToKnownFactory_step w act :
  boundBySession w → boundToKnownFactory w → expected w act →
  boundToKnownFactory (step w act).
Proof.
  intros Hbound Hw Hact. pose proof Hw as [Hs Hps]. unfold step.
  destruct act as [f o| | |f c t|t|i r|payload|a name payload]; cbn [perform].
  - destruct (authenticate_cases f o w) as [H|[H|(a & Ha & H)]].
    + by erewrite bind_Throw by exact H.
    + by erewrite bind_Ok by exact H.
    + erewrite bind_Ok by exact H. apply boundToKnownFactory_await; [|done].
      by exists a.
  - destruct (invalidate_cases w) as [H|(a & H)].
    + by erewrite bind_Ok by exact H.
    + erewrite bind_Ok by exact H. by apply boundToKnownFactory_await.
  - destruct (restore_cases w) as [H|[(f & H)|(f & a & Ha & H)]].
    + by erewrite bind_Ok by exact H.
    + by erewrite bind_Ok by exact H.
    + erewrite bind_Ok by exact H. apply boundToKnownFactory_await; [|done].
      by exists a.
  - destruct Hact.
  - by apply boundToKnownFactory_clear.
  - destruct (pending w !! i) as [p|] eqn:Hp; [|done].
    erewrite bind_Ok by done. rewrite world_of_then_ret.
    apply boundToKnownFactory_settle.
    + apply (Forall_lookup_1 _ _ _ _ Hps Hp).
    + split; [done|]. cbn. apply (Forall_delete _ _ _ Hps).
  - destruct (storeSessionDataUpdated_cases payload w)
      as [(w' & Hclear & H)|[(f & H)|(f & a & Ha & H)]].
    + erewrite bind_Ok by exact H. cbn.
      pose proof (boundToKnownFactory_clear true w Hps) as Hc.
      by rewrite Hclear in Hc.
    + by erewrite bind_Throw by exact H.
    + erewrite bind_Ok by exact H. apply boundToKnownFactory_await; [|done].
      by exists a.
  - unfold authenticatorTrigger.
    destruct (Hbound a name) as [->|[_ [[Hname ->]|[_ ->]]]]; cbn [callAll].
    + done.
    + rewrite world_of_then_ret. cbn [call].
      rewrite (bind_Ok _ _ w (session w) w) by done.
      destruct (Hs (Hact Hname)) as [b Hb].
      by apply (boundToKnownFactory_setup _ b).
    + rewrite world_of_then_ret. by apply boundToKnownFactory_clear.
Qed.

(** X18: along a run in which [setup] is not called from outside and no
    authenticator reports updated data to a session that is not
    authenticated, the session is authenticated exactly when it has a
    factory, and that factory is one the container resolves. *)
Theorem factory_never_missing_on_expected_runs
    (snapshot : data) (acts : list Action)
    (Hexpected : expectedFrom (startup snapshot) acts) :
  let w := run acts (startup snapshot) in
  (isAuthenticated (session w) = true ↔ authenticatorFactory (session w) ≠ VNull) ∧
  (isAuthenticated (session w) = true →
   ∃ a, resolves (authenticatorFactory (session w)) a).
Proof.
  assert (Hrun : ∀ acts w, boundBySession w → boundToKnownFactory w →
                           expectedFrom w acts → boundToKnownFactory (run acts w)).
  { clear. induction acts as [|act acts IH]; intros w Hbound Hw Hacts; [done|].
    destruct Hacts as [Hact Hacts]. cbn. apply IH; [|by apply boundToKnownFactory_step|done].
    by apply boundBySession_perform. }
  cbn zeta.
  destruct (Hrun acts (startup snapshot)) as [Hknown _]; [|done|done|].
  { apply boundBySession_startup. }
  pose proof (factoryOnlyWhenAuthenticated_run snapshot acts) as Hblank.
  split; [split|done].
  - intros Hauth. destruct (Hknown Hauth) as (a & -> & _). done.
  - intros Hfactory.
    destruct (isAuthenticated (session (run acts (startup snapshot)))) eqn:Hauth;
      [done|].
    by destruct (Hblank Hauth) as [Hnull _].
Qed.

End Methods.

(** * The scenarios, run *)

#[local] Existing Instance registry.

Lemma password_resolves : resolves (VStr "password") "password".
Proof. split; [reflexivity | vm_compute; reflexivity]. Qed.

Lemma token_resolves : resolves (VStr "token") "token".
Proof. split; [reflexivity | vm_compute; reflexivity]. Qed.

Lemma loggedIn_session :
  session loggedIn = mkSession true (VStr "password") {[ "token" := VStr "xyz" ]}.
Proof. vm_compute. reflexivity. Qed.

Lemma loggedIn_resolves :
  resolves (authenticatorFactory (session loggedIn)) "password".
Proof. rewrite loggedIn_session. exact password_resolves. Qed.

(** C1 fails on the code: after [staleUpdate] the session is authenticated
    and its factory is [null].  The store event cleared the session and left
    the listeners of ["password"] bound; the [sessionDataUpdated] listener
    then called [setup] with the factory of the cleared session. *)
Theorem stale_update_listener_authenticates_without_factory :
  let cleared := run (login ++ [storeTriggers ∅]) (startup ∅) in
  let w := run staleUpdate (startup ∅) in
  reachable w ∧
  session cleared = freshSession ∧
  listenersOf cleared "password" "sessionDataUpdated" = [onSessionDataUpdated] ∧
  perform (authenticatorTriggers "password" "sessionDataUpdated" {[ "token" := VStr "new" ]})
    cleared = Throw (LookupFailed VNull) w ∧
  isAuthenticated (session w) = true ∧
  authenticatorFactory (session w) = VNull.
Proof.
  cbn zeta. split; [by exists ∅, staleUpdate|].
  split; [|split; [|split; [|split]]]; vm_compute; reflexivity.
Qed.

(** C3 fails on the code: after a successful [invalidate], the
    [sessionDataInvalidated] listener is still bound to the authenticator. *)
Lemma invalidate_leaves_invalidation_listener :
  ∃ w', settling invalidate (Resolved ∅) loggedIn = Ok Fulfilled w' ∧
        listenersOf w' "password" "sessionDataInvalidated" = [onSessionDataInvalidated] ∧
        listenersOf w' "password" "sessionDataInvalidated" ≠ [].
Proof.
  exists (world_of (settling invalidate (Resolved ∅) loggedIn)).
  split; [vm_compute; reflexivity|].
  split; [vm_compute; reflexivity|].
  vm_compute. discriminate.
Qed.

(** C6 fails on the code: the authenticator rejects [restore] with
    [expired], and the promise of the session rejects with nothing. *)
Lemma restore_rejects_without_the_error :
  (∃ w', settling restore (Rejected expired) (startup tokenSnapshot) =
         Ok (RejectedWith None) w') ∧
  ¬ (∃ w', settling restore (Rejected expired) (startup tokenSnapshot) =
           Ok (RejectedWith (Some expired)) w').
Proof.
  assert (H : settling restore (Rejected expired) (startup tokenSnapshot) =
              Ok (RejectedWith None) (startup ∅)) by (vm_compute; reflexivity).
  split.
  - by exists (startup ∅).
  - intros [w' Hw']. rewrite H in Hw'. discriminate.
Qed.

(** ** The theorems at these scenarios *)

Lemma store_matches_session_after_transition_witness :
  isEmpty (VStr "password") = false ∧
  resolves (VStr "password") "password" ∧
  (∃ w', settling (authenticate (VStr "password") credentials)
           (Resolved {[ "token" := VStr "xyz" ]}) (startup ∅) = Ok Fulfilled w' ∧
         isAuthenticated (session w') = true ∧ storeMatchesSession w') ∧
  (∃ w', settling invalidate (Resolved ∅) loggedIn = Ok Fulfilled w' ∧
         isAuthenticated (session w') = false ∧ storeMatchesSession w').
Proof.
  split; [reflexivity|]. split; [exact password_resolves|].
  split.
  - destruct (store_matches_session_after_transition (VStr "password") "password"
                {[ "token" := VStr "xyz" ]} credentials true (startup ∅)
                password_resolves) as (_ & _ & Hauthenticate & _).
    exact (Hauthenticate eq_refl).
  - destruct (store_matches_session_after_transition (VStr "password") "password"
                ∅ credentials true loggedIn
                password_resolves) as (_ & _ & _ & Hinvalidate).
    exact (Hinvalidate "password" loggedIn_resolves).
Defined.

Lemma setup_persists_content_over_factory_witness :
  resolves (VStr "password") "password" ∧
  foreignContent !! "authenticatorFactory" = Some (VStr "token") ∧
  VStr "token" ≠ VStr "password" ∧
  ∃ w', setup (VStr "password") foreignContent true (startup ∅) = Ok tt w' ∧
        store w' !! "authenticatorFactory" = Some (VStr "token") ∧
        authenticatorFactory (session w') = VStr "password".
Proof.
  split; [exact password_resolves|].
  split; [vm_compute; reflexivity|].
  split; [discriminate|].
  destruct (setup_persists_content_over_factory (VStr "password") "password"
              foreignContent true (VStr "token") (startup ∅))
    as (w' & Hsetup & _ & _ & Hstore & Hsession & _);
    [exact password_resolves | vm_compute; reflexivity | discriminate |].
  exists w'. auto.
Defined.

Lemma setup_triggers_on_the_edge_only_witness :
  isEmpty (VStr "token") = false ∧
  resolves (VStr "token") "token" ∧
  isAuthenticated (session loggedIn) = true ∧
  ∃ w', settling (authenticate (VStr "token") credentials)
          (Resolved {[ "token" := VStr "abc" ]}) loggedIn = Ok Fulfilled w' ∧
        triggered w' = triggered loggedIn.
Proof.
  split; [reflexivity|]. split; [exact token_resolves|].
  split; [vm_compute; reflexivity|].
  destruct (setup_triggers_on_the_edge_only (VStr "token") "token"
              {[ "token" := VStr "abc" ]} credentials true loggedIn
              token_resolves) as (_ & _ & Hagain).
  apply Hagain; [reflexivity | vm_compute; reflexivity].
Defined.

Lemma authenticate_rejected_witness :
  isEmpty (VStr "password") = false ∧
  resolves (VStr "password") "password" ∧
  ∃ w', settling (authenticate (VStr "password") credentials)
          (Rejected badCredentials) (startup ∅) =
          Ok (RejectedWith (Some badCredentials)) w' ∧
        isAuthenticated (session w') = false ∧
        authenticatorFactory (session w') = VNull ∧
        content (session w') = ∅ ∧
        store w' = ∅ ∧
        triggered w' = triggered (startup ∅) ++ [sessionAuthenticationFailed badCredentials].
Proof.
  split; [reflexivity|]. split; [exact password_resolves|].
  apply (authenticate_rejected (VStr "password") "password");
    [reflexivity | exact password_resolves].
Defined.

Lemma invalidate_rejected_witness :
  isAuthenticated (session loggedIn) = true ∧
  resolves (authenticatorFactory (session loggedIn)) "password" ∧
  ∃ w', settling invalidate (Rejected badCredentials) loggedIn =
          Ok (RejectedWith (Some badCredentials)) w' ∧
        session w' = session loggedIn ∧
        isAuthenticated (session w') = true ∧
        store w' = store loggedIn ∧
        listeners w' = listeners loggedIn ∧
        triggered w' = triggered loggedIn ++ [sessionInvalidationFailed badCredentials].
Proof.
  split; [vm_compute; reflexivity|]. split; [exact loggedIn_resolves|].
  apply (invalidate_rejected "password" badCredentials loggedIn);
    [vm_compute; reflexivity | exact loggedIn_resolves].
Defined.

Lemma restore_resolved_is_silent_witness :
  store (startup tokenSnapshot) !! "authenticatorFactory" = Some (VStr "token") ∧
  truthy (VStr "token") = true ∧
  resolves (VStr "token") "token" ∧
  ∃ w', settling restore
          (Resolved {[ "token" := VStr "abc"; "user" := VStr "u" ]}) (startup tokenSnapshot) =
          Ok Fulfilled w' ∧
        isAuthenticated (session w') = true ∧
        authenticatorFactory (session w') = VStr "token" ∧
        content (session w') = {[ "token" := VStr "abc"; "user" := VStr "u" ]} ∧
        triggered w' = triggered (startup tokenSnapshot).
Proof.
  split; [vm_compute; reflexivity|]. split; [reflexivity|].
  split; [exact token_resolves|].
  apply (restore_resolved_is_silent (VStr "token") "token");
    [vm_compute; reflexivity | reflexivity | exact token_resolves].
Defined.

Lemma restore_rejected_drops_the_error_witness :
  store (startup tokenSnapshot) !! "authenticatorFactory" = Some (VStr "token") ∧
  truthy (VStr "token") = true ∧
  resolves (VStr "token") "token" ∧
  ∃ w', settling restore (Rejected expired) (startup tokenSnapshot) =
          Ok (RejectedWith None) w' ∧
        store w' = ∅ ∧
        session w' = session (startup tokenSnapshot) ∧
        triggered w' = triggered (startup tokenSnapshot).
Proof.
  split; [vm_compute; reflexivity|]. split; [reflexivity|].
  split; [exact token_resolves|].
  apply (restore_rejected_drops_the_error (VStr "token") "token");
    [vm_compute; reflexivity | reflexivity | exact token_resolves].
Defined.

Lemma invalidate_unbinds_update_listener_witness :
  resolves (authenticatorFactory (session loggedIn)) "password" ∧
  (∃ w', settling invalidate (Resolved ∅) loggedIn = Ok Fulfilled w' ∧
         listenersOf w' "password" "sessionDataUpdated" = []) ∧
  singleSubscription (run staleUpdate (startup ∅)).
Proof.
  split; [exact loggedIn_resolves|].
  destruct (invalidate_unbinds_update_listener "password" ∅ loggedIn
              loggedIn_resolves) as (Hoff & _ & Hsingle).
  split; [exact Hoff | apply Hsingle].
Defined.

(** ** The methods beyond the claims, at these scenarios *)

Lemma facebook_unknown a : ¬ resolves (VStr "facebook") a.
Proof. intros [[= <-] Hin]. vm_compute in Hin. discriminate. Qed.

Lemma startup_reachable snapshot : reachable (startup snapshot).
Proof. by exists snapshot, []. Qed.

Lemma loggedIn_reachable : reachable loggedIn.
Proof. by exists ∅, login. Qed.

Lemma authenticate_resolved_witness :
  isEmpty (VStr "password") = false ∧
  resolves (VStr "password") "password" ∧
  ∃ w', settling (authenticate (VStr "password") credentials)
          (Resolved {[ "token" := VStr "xyz" ]}) (startup ∅) = Ok Fulfilled w' ∧
        session w' = mkSession true (VStr "password") {[ "token" := VStr "xyz" ]} ∧
        triggered w' = [sessionAuthenticationSucceeded].
Proof.
  split; [reflexivity|]. split; [exact password_resolves|].
  destruct (authenticate_resolved (VStr "password") "password" credentials
              {[ "token" := VStr "xyz" ]} (startup ∅) eq_refl password_resolves)
    as (w' & Hrun & Hsession & _ & _ & _ & Hlog).
  exists w'. auto.
Defined.


Lemma invalidate_resolved_witness :
  isAuthenticated (session loggedIn) = true ∧
  resolves (authenticatorFactory (session loggedIn)) "password" ∧
  ∃ w', settling invalidate (Resolved ∅) loggedIn = Ok Fulfilled w' ∧
        session w' = mkSession false VNull ∅ ∧
        store w' = ∅ ∧
        triggered w' = triggered loggedIn ++ [sessionInvalidationSucceeded].
Proof.
  split; [vm_compute; reflexivity|]. split; [exact loggedIn_resolves|].
  apply (invalidate_resolved "password" ∅ loggedIn);
    [vm_compute; reflexivity | exact loggedIn_resolves].
Defined.

Lemma invalidate_when_unauthenticated_witness :
  reachable (startup tokenSnapshot) ∧
  isAuthenticated (session (startup tokenSnapshot)) = false ∧
  settling invalidate (Resolved ∅) (startup tokenSnapshot) =
    Ok (RejectedByThrow (LookupFailed VNull)) (startup tokenSnapshot).
Proof.
  split; [apply startup_reachable|]. split; [reflexivity|].
  apply (invalidate_when_unauthenticated (Resolved ∅) (startup tokenSnapshot));
    [apply startup_reachable | reflexivity].
Defined.

Lemma restore_nothing_to_restore_witness :
  (∃ v, store (startup falsySnapshot) !! "authenticatorFactory" = Some v ∧
        truthy v = false) ∧
  settling restore (Resolved ∅) (startup falsySnapshot) =
    Ok (RejectedWith None) (withStore ∅ (startup falsySnapshot)).
Proof.
  assert (Hfalsy : ∃ v, store (startup falsySnapshot) !! "authenticatorFactory" = Some v ∧
                        truthy v = false).
  { exists (VStr ""). split; [vm_compute; reflexivity | reflexivity]. }
  split; [exact Hfalsy|].
  apply (restore_nothing_to_restore (Resolved ∅) (startup falsySnapshot)).
  right. exact Hfalsy.
Defined.

Lemma restore_unknown_factory_witness :
  store (startup unknownSnapshot) !! "authenticatorFactory" = Some (VStr "facebook") ∧
  truthy (VStr "facebook") = true ∧
  (∀ a, ¬ resolves (VStr "facebook") a) ∧
  settling restore (Resolved ∅) (startup unknownSnapshot) =
    Ok (RejectedByThrow (LookupFailed (VStr "facebook"))) (startup unknownSnapshot).
Proof.
  split; [vm_compute; reflexivity|]. split; [reflexivity|].
  split; [exact facebook_unknown|].
  apply (restore_unknown_factory (VStr "facebook") (Resolved ∅) (startup unknownSnapshot));
    [vm_compute; reflexivity | reflexivity | exact facebook_unknown].
Defined.

Lemma setup_then_restore_witness :
  resolves (VStr "token") "token" ∧
  truthy (VStr "token") = true ∧
  ({[ "token" := VStr "abc" ]} : data) !! "authenticatorFactory" = None ∧
  ∃ w1, setup (VStr "token") {[ "token" := VStr "abc" ]} true (startup ∅) = Ok tt w1 ∧
        restore (startup (store w1)) =
          Ok (inr (mkPending "token" (restoreWith {[ "token" := VStr "abc" ]})
                     (thenOfRestore (VStr "token")))) (startup (store w1)).
Proof.
  split; [exact token_resolves|]. split; [reflexivity|].
  split; [vm_compute; reflexivity|].
  destruct (setup_then_restore (VStr "token") "token" {[ "token" := VStr "abc" ]} true
              (startup ∅) token_resolves eq_refl)
    as (w1 & Hsetup & _ & Hnext & _); [vm_compute; reflexivity|].
  exists w1. auto.
Defined.

Lemma store_update_without_factory_witness :
  (∅ : data) !! "authenticatorFactory" = None ∧
  ∃ w', storeSessionDataUpdated ∅ loggedIn = Ok None w' ∧
        session w' = mkSession false VNull ∅ ∧
        store w' = ∅ ∧
        listeners w' = listeners loggedIn ∧
        triggered w' =
          triggered loggedIn ++
          (if isAuthenticated (session loggedIn)
           then [sessionInvalidationSucceeded] else []).
Proof.
  split; [reflexivity|].
  apply (store_update_without_factory ∅ loggedIn). left. reflexivity.
Defined.

Lemma store_update_with_factory_witness :
  tokenSnapshot !! "authenticatorFactory" = Some (VStr "token") ∧
  truthy (VStr "token") = true ∧
  resolves (VStr "token") "token" ∧
  ∃ w', settle (thenOfStoreUpdate (VStr "token"))
          (Resolved {[ "token" := VStr "abc" ]}) (startup ∅) = Ok Fulfilled w' ∧
        session w' = mkSession true (VStr "token") {[ "token" := VStr "abc" ]}.
Proof.
  split; [vm_compute; reflexivity|]. split; [reflexivity|].
  split; [exact token_resolves|].
  destruct (store_update_with_factory tokenSnapshot (VStr "token") "token"
              {[ "token" := VStr "abc" ]} expired (startup ∅))
    as (_ & (w' & Hsettle & Hsession & _) & _);
    [vm_compute; reflexivity | reflexivity | exact token_resolves |].
  exists w'. auto.
Defined.

Lemma authenticator_update_refreshes_witness :
  listenersOf loggedInTwice "password" "sessionDataUpdated" = [onSessionDataUpdated] ∧
  resolves (authenticatorFactory (session loggedInTwice)) "token" ∧
  ∃ w', authenticatorTrigger "password" "sessionDataUpdated"
          {[ "token" := VStr "new" ]} loggedInTwice = Ok tt w' ∧
        session w' =
          mkSession true (authenticatorFactory (session loggedInTwice))
            {[ "token" := VStr "new" ]} ∧
        triggered w' = triggered loggedInTwice.
Proof.
  assert (Hf : resolves (authenticatorFactory (session loggedInTwice)) "token").
  { split; [vm_compute; reflexivity | vm_compute; reflexivity]. }
  split; [vm_compute; reflexivity|]. split; [exact Hf|].
  destruct (authenticator_update_refreshes "password" "token"
              {[ "token" := VStr "new" ]} loggedInTwice)
    as (w' & Hrun & Hsession & _ & _ & Hlog);
    [vm_compute; reflexivity | exact Hf |].
  exists w'. auto.
Defined.

Lemma authenticator_invalidation_clears_witness :
  listenersOf loggedInTwice "password" "sessionDataInvalidated" =
    [onSessionDataInvalidated] ∧
  ∃ w', authenticatorTrigger "password" "sessionDataInvalidated" ∅ loggedInTwice =
          Ok tt w' ∧
        session w' = mkSession false VNull ∅ ∧
        store w' = ∅.
Proof.
  split; [vm_compute; reflexivity|].
  destruct (authenticator_invalidation_clears "password" ∅ loggedInTwice)
    as (w' & Hrun & Hsession & Hstore & _); [vm_compute; reflexivity|].
  exists w'. auto.
Defined.

Lemma other_listeners_stay_bound_witness :
  resolves (VStr "token") "token" ∧
  ∃ w', setup (VStr "token") ∅ true loggedIn = Ok tt w' ∧
        listenersOf w' "password" "sessionDataUpdated" =
          listenersOf loggedIn "password" "sessionDataUpdated".
Proof.
  split; [exact token_resolves|].
  destruct (other_listeners_stay_bound (VStr "token") "token" ∅ true loggedIn
              token_resolves) as [(w' & Hsetup & Hother) _].
  exists w'. split; [exact Hsetup|]. apply Hother. discriminate.
Defined.

Lemma only_bound_listeners_run_witness :
  reachable loggedIn ∧
  ("facebook" ∉ registered) ∧
  authenticatorTrigger "facebook" "sessionDataUpdated" ∅ loggedIn = Ok tt loggedIn.
Proof.
  assert (Hforeign : "facebook" ∉ registered).
  { intros Hin. vm_compute in Hin. discriminate. }
  split; [exact loggedIn_reachable|]. split; [exact Hforeign|].
  apply (only_bound_listeners_run "facebook" "sessionDataUpdated" ∅ loggedIn
           loggedIn_reachable).
  left. exact Hforeign.
Defined.


Lemma success_events_mark_transitions_witness :
  reachable loggedIn ∧
  onTheEdge loggedIn (step loggedIn (storeTriggers ∅)).
Proof.
  split; [exact loggedIn_reachable|].
  apply (success_events_mark_transitions (storeTriggers ∅) loggedIn loggedIn_reachable).
Defined.

Lemma login_then_logout_witness :
  isAuthenticated (session (startup ∅)) = false ∧
  isEmpty (VStr "password") = false ∧
  resolves (VStr "password") "password" ∧
  ∃ w1 w2,
    settling (authenticate (VStr "password") credentials)
      (Resolved {[ "token" := VStr "xyz" ]}) (startup ∅) = Ok Fulfilled w1 ∧
    settling invalidate (Resolved ∅) w1 = Ok Fulfilled w2 ∧
    session w2 = mkSession false VNull ∅ ∧
    store w2 = ∅ ∧
    triggered w2 =
      triggered (startup ∅) ++
      [sessionAuthenticationSucceeded; sessionInvalidationSucceeded].
Proof.
  split; [reflexivity|]. split; [reflexivity|]. split; [exact password_resolves|].
  apply (login_then_logout (VStr "password") "password" credentials
           {[ "token" := VStr "xyz" ]} ∅ (startup ∅));
    [reflexivity | reflexivity | exact password_resolves].
Defined.

Lemma logout_is_final_for_its_authenticator_witness :
  reachable loggedIn ∧
  resolves (authenticatorFactory (session loggedIn)) "password" ∧
  ∃ w', settling invalidate (Resolved ∅) loggedIn = Ok Fulfilled w' ∧
        ∀ name payload, authenticatorTrigger "password" name payload w' = Ok tt w'.
Proof.
  split; [exact loggedIn_reachable|]. split; [exact loggedIn_resolves|].
  apply (logout_is_final_for_its_authenticator "password" ∅ loggedIn
           loggedIn_reachable loggedIn_resolves).
Defined.

Lemma factory_never_missing_on_expected_runs_witness :
  expectedFrom (startup ∅) refreshThenLogout ∧
  (isAuthenticated (session (run refreshThenLogout (startup ∅))) = true ↔
   authenticatorFactory (session (run refreshThenLogout (startup ∅))) ≠ VNull).
Proof.
  assert (Hexpected : expectedFrom (startup ∅) refreshThenLogout).
  { cbn [refreshThenLogout login app expectedFrom expected].
    split; [exact I|]. split; [exact I|].
    split; [intros _; vm_compute; reflexivity|].
    split; [exact I|]. split; [exact I|]. exact I. }
  split; [exact Hexpected|].
  apply (factory_never_missing_on_expected_runs ∅ refreshThenLogout Hexpected).
Defined.
